(** * Emulated Hue: the UPnP/SSDP discovery responder

    A shallow embedding of [homeassistant/components/emulated_hue/upnp.py]
    ([UPNPResponderThread] and [clean_socket_close]) together with the
    properties of the responder that the specification states.

    Python values are modelled as follows.
    - [str] is a sequence of Unicode code points: [list N].
    - [bytes] is [list byte].
    - [int] is [Z].
    - Calls into the socket, select and logging modules are recorded in a
      trace; whether a call returns or raises [socket.error] is decided by
      the environment and is an input of the model.

    The development also covers the two HTTP views of the same file, the
    choice of the period in [components/sensor/history_average.py] and the
    two functions of [util/json.py]. *)

From Stdlib Require Import List NArith ZArith Bool Lia.
From Stdlib.Strings Require Import String Ascii Byte.
From Stdlib Require Import DecimalString.
Import ListNotations.

Local Open Scope N_scope.

(** ** Python strings and bytes *)

Definition pystr := list N.

Definition str (s : string) : pystr :=
  map N_of_ascii (list_ascii_of_string s).

(** [str(n)] for an [int]: the decimal numeral, with a minus sign when
    negative. *)
Definition str_of_int (n : Z) : pystr :=
  str (NilZero.string_of_int (Z.to_int n)).

(** The byte whose value is [n mod 256]. *)
Definition byte_of_N (n : N) : byte :=
  match Byte.of_N (n mod 256) with
  | Some b => b
  | None => x00
  end.

Definition bytes (s : string) : list byte :=
  map (fun a => byte_of_N (N_of_ascii a)) (list_ascii_of_string s).

Definition CR : N := 13.
Definition LF : N := 10.

(** [needle in hay] on strings: [hay] has [needle] as a contiguous
    substring. *)
Fixpoint startswith (hay needle : pystr) : bool :=
  match needle, hay with
  | [], _ => true
  | _ :: _, [] => false
  | a :: needle', b :: hay' => (a =? b) && startswith hay' needle'
  end.

Fixpoint str_contains (hay needle : pystr) : bool :=
  startswith hay needle
  || match hay with
     | [] => false
     | _ :: hay' => str_contains hay' needle
     end.

(** [s.replace("\n", "\r\n")]: the pattern is one character long, so every
    occurrence is replaced independently. *)
Fixpoint replace_lf_crlf (s : pystr) : pystr :=
  match s with
  | [] => []
  | c :: s' =>
      if c =? LF then CR :: LF :: replace_lf_crlf s'
      else c :: replace_lf_crlf s'
  end.

(** ** [str.format] with numbered fields

    The part of the format mini-language that [resp_template] uses: literal
    text and replacement fields [{0}], [{1}], ... that select a positional
    argument.  The arguments are passed already converted with [str()].
    Anything else (a brace that does not belong to such a field, an index
    without argument) is [None], where Python raises. *)

Definition is_digit (c : N) : bool := (48 <=? c) && (c <=? 57).

Fixpoint format_from (args : list pystr) (field : option (option N))
         (t : pystr) : option pystr :=
  match t with
  | [] =>
      match field with
      | None => Some []
      | Some _ => None
      end
  | c :: t' =>
      match field with
      | None =>
          if c =? 123 then format_from args (Some None) t'
          else if c =? 125 then None
          else option_map (cons c) (format_from args None t')
      | Some idx =>
          if c =? 125 then
            match idx with
            | Some i =>
                match nth_error args (N.to_nat i) with
                | Some a => option_map (app a) (format_from args None t')
                | None => None
                end
            | None => None
            end
          else if is_digit c then
            let d := c - 48 in
            let i := match idx with Some i => 10 * i + d | None => d end in
            format_from args (Some (Some i)) t'
          else None
      end
  end.

Definition format (t : pystr) (args : list pystr) : option pystr :=
  format_from args None t.

(** ** UTF-8 *)

(** [s.encode('utf-8')].  [None] stands for [UnicodeEncodeError]: a
    surrogate code point cannot be encoded, and nothing above U+10FFFF is a
    character of a [str]. *)
Definition encode_char (c : N) : option (list byte) :=
  if c <? 0x80 then Some [byte_of_N c]
  else if c <? 0x800 then
    Some [byte_of_N (N.lor 0xC0 (N.shiftr c 6));
          byte_of_N (N.lor 0x80 (N.land c 0x3F))]
  else if c <? 0x10000 then
    if (0xD800 <=? c) && (c <=? 0xDFFF) then None
    else
      Some [byte_of_N (N.lor 0xE0 (N.shiftr c 12));
            byte_of_N (N.lor 0x80 (N.land (N.shiftr c 6) 0x3F));
            byte_of_N (N.lor 0x80 (N.land c 0x3F))]
  else if c <? 0x110000 then
    Some [byte_of_N (N.lor 0xF0 (N.shiftr c 18));
          byte_of_N (N.lor 0x80 (N.land (N.shiftr c 12) 0x3F));
          byte_of_N (N.lor 0x80 (N.land (N.shiftr c 6) 0x3F));
          byte_of_N (N.lor 0x80 (N.land c 0x3F))]
  else None.

Fixpoint encode_utf8 (s : pystr) : option (list byte) :=
  match s with
  | [] => Some []
  | c :: s' =>
      match encode_char c, encode_utf8 s' with
      | Some b, Some bs => Some (b ++ bs)
      | _, _ => None
      end
  end.

(** [b.decode('utf-8', errors=...)].  The decoder reads the bytes from left
    to right.  A lead byte announces how many continuation bytes follow and
    which values the next one may take (the narrowed ranges after E0, ED,
    F0 and F4 exclude overlong forms, surrogates and values above
    U+10FFFF).  An error is a byte that cannot start a sequence, a sequence
    broken by a byte outside the expected range (that byte is then examined
    again as the start of a new sequence), or the end of the input inside a
    sequence.  With [strict] an error makes the call raise (here [None]);
    with [ignore] the ill-formed bytes are dropped and decoding goes on. *)
Inductive error_handler := strict | ignore.

Record pending := {
  need : nat;      (* continuation bytes still expected after the next one *)
  acc : N;         (* bits gathered so far *)
  lo : N;          (* the next byte must lie in [lo, hi] *)
  hi : N
}.

Inductive lead :=
| Ascii (c : N)
| Lead (p : pending)
| InvalidStart.

Definition classify (b : N) : lead :=
  if b <? 0x80 then Ascii b
  else if b <? 0xC2 then InvalidStart
  else if b <? 0xE0 then Lead {| need := 0; acc := N.land b 0x1F; lo := 0x80; hi := 0xBF |}
  else if b =? 0xE0 then Lead {| need := 1; acc := N.land b 0x0F; lo := 0xA0; hi := 0xBF |}
  else if b =? 0xED then Lead {| need := 1; acc := N.land b 0x0F; lo := 0x80; hi := 0x9F |}
  else if b <? 0xF0 then Lead {| need := 1; acc := N.land b 0x0F; lo := 0x80; hi := 0xBF |}
  else if b =? 0xF0 then Lead {| need := 2; acc := N.land b 0x07; lo := 0x90; hi := 0xBF |}
  else if b <? 0xF4 then Lead {| need := 2; acc := N.land b 0x07; lo := 0x80; hi := 0xBF |}
  else if b =? 0xF4 then Lead {| need := 2; acc := N.land b 0x07; lo := 0x80; hi := 0x8F |}
  else InvalidStart.

Definition on_error (h : error_handler) (rest : option pystr) : option pystr :=
  match h with
  | strict => None
  | ignore => rest
  end.

Fixpoint decode_from (h : error_handler) (st : option pending)
         (s : list byte) : option pystr :=
  match s with
  | [] =>
      match st with
      | None => Some []
      | Some _ => on_error h (Some [])
      end
  | b :: s' =>
      let n := Byte.to_N b in
      let fresh :=
        match classify n with
        | Ascii c => option_map (cons c) (decode_from h None s')
        | Lead p => decode_from h (Some p) s'
        | InvalidStart => on_error h (decode_from h None s')
        end in
      match st with
      | None => fresh
      | Some p =>
          if (lo p <=? n) && (n <=? hi p) then
            let a := N.lor (N.shiftl (acc p) 6) (N.land n 0x3F) in
            match need p with
            | O => option_map (cons a) (decode_from h None s')
            | S k =>
                decode_from h
                  (Some {| need := k; acc := a; lo := 0x80; hi := 0xBF |}) s'
            end
          else on_error h fresh
      end
  end.

Definition decode_utf8 (h : error_handler) (s : list byte) : option pystr :=
  decode_from h None s.

(** [data.decode('utf-8', errors='ignore')], which cannot raise (see
    [decode_ignore_total]). *)
Definition decode_utf8_ignore (s : list byte) : pystr :=
  match decode_utf8 ignore s with
  | Some t => t
  | None => []
  end.

(** ** The responder object *)

Local Open Scope string_scope.
Local Open Scope list_scope.
Local Open Scope N_scope.

(** The attributes of a [UPNPResponderThread].  [_interrupted] is the class
    attribute, [False] until [stop] assigns it on the instance. *)
Record UPNPResponderThread := {
  host_ip_addr : pystr;
  listen_port : Z;
  upnp_bind_multicast : bool;
  upnp_response : list byte;
  _interrupted : bool
}.

Definition resp_template : pystr := str
"HTTP/1.1 200 OK
CACHE-CONTROL: max-age=60
EXT:
LOCATION: http://{0}:{1}/description.xml
SERVER: FreeRTOS/6.0.5, UPnP/1.0, IpBridge/0.1
hue-bridgeid: 1234
ST: urn:schemas-upnp-org:device:basic:1
USN: uuid:Socket-1_0-221438K0100073::urn:schemas-upnp-org:device:basic:1

".

(** [resp_template.format(advertise_ip, advertise_port)
      .replace("\n", "\r\n").encode('utf-8')] *)
Definition build_response (advertise_ip : pystr) (advertise_port : Z)
  : option (list byte) :=
  match format resp_template [advertise_ip; str_of_int advertise_port] with
  | Some text => encode_utf8 (replace_lf_crlf text)
  | None => None
  end.

(** [UPNPResponderThread.__init__]; [None] when the constructor raises. *)
Definition __init__ (host_ip_addr : pystr) (listen_port : Z)
           (upnp_bind_multicast : bool)
           (advertise_ip : pystr) (advertise_port : Z)
  : option UPNPResponderThread :=
  match build_response advertise_ip advertise_port with
  | Some response =>
      Some {| host_ip_addr := host_ip_addr;
              listen_port := listen_port;
              upnp_bind_multicast := upnp_bind_multicast;
              upnp_response := response;
              _interrupted := false |}
  | None => None
  end.

(** ** Calls to the outside and their trace *)

(** A peer address as [recvfrom] returns it: host and port. *)
Definition address := (pystr * Z)%type.

(** The two socket variables of [run]. *)
Inductive sock := ssdp_socket | resp_socket.

Inductive call :=
| Socket (s : sock)                       (* socket.socket(AF_INET, SOCK_DGRAM) *)
| SetBlocking (s : sock) (flag : bool)
| SetReuseAddr (s : sock) (v : Z)         (* SOL_SOCKET, SO_REUSEADDR *)
| SetMulticastIf (s : sock) (host : pystr)          (* SOL_IP, IP_MULTICAST_IF *)
| AddMembership (s : sock) (group host : pystr)     (* SOL_IP, IP_ADD_MEMBERSHIP *)
| Bind (s : sock) (host : pystr) (port : Z)
| Select (s : sock) (timeout : Z)
| RecvFrom (s : sock) (bufsize : nat)
| SendTo (s : sock) (payload : list byte) (dest : address)
| Close (s : sock)
| LogInfo (msg : string)
| LogError (msg : string).

Inductive outcome := returns | raises.

Definition trace := list (call * outcome).

(** The environment's part in one step of the thread.  Only the component
    that belongs to the step being taken is read. *)
Inductive setup_call :=
| on_socket | on_setblocking | on_reuseaddr | on_multicast_if
| on_add_membership | on_bind.

Inductive poll :=
| timed_out                                      (* ssdp_socket not in read *)
| datagram (payload : list byte) (src : address) (* readable, recvfrom returns *)
| recvfrom_raises                                (* readable, recvfrom raises *)
| select_raises.

Inductive reply_call := on_reply_socket | on_sendto.

Record env := {
  setup_fault : option setup_call;   (* the set-up call that raises, if any *)
  polled : poll;
  reply_fault : option reply_call    (* the call of the reply that raises, if any *)
}.

Definition setup_call_eqb (a b : setup_call) : bool :=
  match a, b with
  | on_socket, on_socket | on_setblocking, on_setblocking
  | on_reuseaddr, on_reuseaddr | on_multicast_if, on_multicast_if
  | on_add_membership, on_add_membership | on_bind, on_bind => true
  | _, _ => false
  end.

(** Straight-line code: the calls are made in order until one raises.  The
    result is the trace of the calls made and whether all returned. *)
Fixpoint perform (fault : option setup_call) (cs : list (setup_call * call))
  : trace * bool :=
  match cs with
  | [] => ([], true)
  | (k, c) :: cs' =>
      if match fault with Some f => setup_call_eqb f k | None => false end
      then ([(c, raises)], false)
      else let (t, r) := perform fault cs' in ((c, returns) :: t, r)
  end.

(** Lines 150-170 of [run].  Each [setsockopt] line stands for the whole
    statement, [inet_aton] included. *)
Definition setup (self : UPNPResponderThread) : list (setup_call * call) :=
  [ (on_socket, Socket ssdp_socket);
    (on_setblocking, SetBlocking ssdp_socket false);
    (on_reuseaddr, SetReuseAddr ssdp_socket 1);
    (on_multicast_if, SetMulticastIf ssdp_socket (host_ip_addr self));
    (on_add_membership,
      AddMembership ssdp_socket (str "239.255.255.250") (host_ip_addr self));
    (on_bind,
      if upnp_bind_multicast self
      then Bind ssdp_socket (str "") 1900
      else Bind ssdp_socket (host_ip_addr self) 1900) ].

(** [clean_socket_close(sock)] *)
Definition clean_socket_close (s : sock) : trace :=
  [ (LogInfo "UPNP responder shutting down.", returns);
    (Close s, returns) ].

(** ** The thread and its supervisor *)

(** Where the thread stands in [run]. *)
Inductive pc :=
| at_setup                                   (* line 150, entering run *)
| at_loop_top                                (* line 173 *)
| at_select                                  (* line 178, inside try *)
| at_except                                  (* line 188 *)
| at_handle (data : list byte) (addr : address)   (* line 198 *)
| returned                                   (* run returned *)
| raised.                                    (* an exception left run *)

(** The caller of [start] and [stop].  [run] is executed by the thread that
    [start] creates, so an exception that leaves [run] ends that thread and
    is raised in no call of the supervisor: of the thread the supervisor
    sees only, in [join], whether it has ended. *)
Inductive supervisor := idle | joining | stop_returned.

Record state := {
  self : UPNPResponderThread;
  at_pc : pc;
  log : trace;
  sup : supervisor
}.

Definition finished (p : pc) : bool :=
  match p with
  | returned | raised => true
  | _ => false
  end.

Definition goto (p : pc) (t : trace) (s : state) : state :=
  {| self := self s; at_pc := p; log := log s ++ t; sup := sup s |}.

Definition M_SEARCH : pystr := str "M-SEARCH".

(** Lines 198-204: the body run for one received datagram. *)
Definition handle (data : list byte) (addr : address) (e : env) (s : state)
  : state :=
  if str_contains (decode_utf8_ignore data) M_SEARCH then
    match reply_fault e with
    | Some on_reply_socket =>
        goto raised [(Socket resp_socket, raises)] s
    | Some on_sendto =>
        goto raised
          [(Socket resp_socket, returns);
           (SendTo resp_socket (upnp_response (self s)) addr, raises)] s
    | None =>
        goto at_loop_top
          [(Socket resp_socket, returns);
           (SendTo resp_socket (upnp_response (self s)) addr, returns);
           (Close resp_socket, returns)] s
    end
  else goto at_loop_top [] s.

(** One step of [run], from one point of interaction with the flag or with
    the environment to the next. *)
Definition thread_step (e : env) (s : state) : state :=
  match at_pc s with
  | at_setup =>
      let (t, all_returned) := perform (setup_fault e) (setup (self s)) in
      goto (if all_returned then at_loop_top else raised) t s
  | at_loop_top =>
      if _interrupted (self s)
      then goto returned (clean_socket_close ssdp_socket) s
      else goto at_select [] s
  | at_select =>
      match polled e with
      | timed_out =>
          goto at_loop_top [(Select ssdp_socket 2, returns)] s
      | datagram payload src =>
          goto (at_handle (firstn 1024 payload) src)
            [(Select ssdp_socket 2, returns);
             (RecvFrom ssdp_socket 1024, returns)] s
      | recvfrom_raises =>
          goto at_except
            [(Select ssdp_socket 2, returns);
             (RecvFrom ssdp_socket 1024, raises)] s
      | select_raises =>
          goto at_except [(Select ssdp_socket 2, raises)] s
      end
  | at_except =>
      if _interrupted (self s)
      then goto returned (clean_socket_close ssdp_socket) s
      else
        goto at_loop_top
          [(LogError "UPNP Responder socket exception occurred: %s", returns)] s
  | at_handle data addr => handle data addr e s
  | returned | raised => s
  end.

(** [stop], line 209: [self._interrupted = True]. *)
Definition interrupt (self : UPNPResponderThread) : UPNPResponderThread :=
  {| host_ip_addr := host_ip_addr self;
     listen_port := listen_port self;
     upnp_bind_multicast := upnp_bind_multicast self;
     upnp_response := upnp_response self;
     _interrupted := true |}.

(** What can happen next: the thread advances, the supervisor enters [stop]
    (the assignment is made and [join] begins), or the pending [join] finds
    the thread finished and [stop] returns.  [join] cannot return while the
    thread is alive, and a supervisor blocked in [join] makes no new call. *)
Inductive event :=
| thread (e : env)
| stop_called
| join_returns.

Definition step (s : state) (ev : event) : state :=
  match ev with
  | thread e => thread_step e s
  | stop_called =>
      match sup s with
      | joining => s
      | _ => {| self := interrupt (self s); at_pc := at_pc s;
                log := log s; sup := joining |}
      end
  | join_returns =>
      match sup s with
      | joining =>
          if finished (at_pc s)
          then {| self := self s; at_pc := at_pc s;
                  log := log s; sup := stop_returned |}
          else s
      | _ => s
      end
  end.

Definition exec (s : state) (evs : list event) : state :=
  fold_left step evs s.

(** [start()] has been called on a fresh object: the thread is about to
    enter [run]. *)
Definition started (r : UPNPResponderThread) : state :=
  {| self := r; at_pc := at_setup; log := []; sup := idle |}.

(** ** What a trace shows *)

(** The datagrams handed to the network: the [sendto] calls that returned. *)
Fixpoint sent (t : trace) : list (list byte * address) :=
  match t with
  | [] => []
  | (SendTo _ payload dest, returns) :: t' => (payload, dest) :: sent t'
  | _ :: t' => sent t'
  end.

Definition sock_eqb (a b : sock) : bool :=
  match a, b with
  | ssdp_socket, ssdp_socket | resp_socket, resp_socket => true
  | _, _ => false
  end.

(** The number of sockets of variable [v] that a trace leaves open, counting
    from [n]: a socket is open from the [socket.socket()] that returned it
    to its [close()]. *)
Fixpoint open_count (v : sock) (n : nat) (t : trace) : nat :=
  match t with
  | [] => n
  | (Socket v', returns) :: t' =>
      open_count v (if sock_eqb v v' then S n else n) t'
  | (Close v', returns) :: t' =>
      open_count v (if sock_eqb v v' then pred n else n) t'
  | _ :: t' => open_count v n t'
  end.


Definition crlf : list byte := [x0d; x0a].

(** The reply as the specification words it: the header lines of the SSDP
    response, each ended by CR LF, the LOCATION line carrying the address
    and the port, and an empty line at the end. *)
Definition crlf_lines (lines : list string) : list byte :=
  List.concat (map (fun l => bytes l ++ crlf) lines).

Definition expected_reply (ip port : list byte) : list byte :=
  crlf_lines ["HTTP/1.1 200 OK"; "CACHE-CONTROL: max-age=60"; "EXT:"]
  ++ bytes "LOCATION: http://" ++ ip ++ bytes ":" ++ port
  ++ bytes "/description.xml" ++ crlf
  ++ crlf_lines
       ["SERVER: FreeRTOS/6.0.5, UPnP/1.0, IpBridge/0.1";
        "hue-bridgeid: 1234";
        "ST: urn:schemas-upnp-org:device:basic:1";
        "USN: uuid:Socket-1_0-221438K0100073::urn:schemas-upnp-org:device:basic:1";
        ""].

(** ** Notions used by the statements

    Classes of characters and bytes, predicates on traces, the pieces of
    the template, the invariant of a run and the scenarios that the
    examples run. *)

(** Code points below 128 are encoded as themselves. *)
Definition all_ascii (s : pystr) : bool := forallb (fun c => c <? 0x80) s.


(** What [encode_char] produces for a character outside ASCII: bytes with
    the high bit set, so neither CR nor LF. *)
Definition high (x : byte) : Prop :=
  Byte.to_N x <> LF /\ Byte.to_N x <> CR.

(** A character that [replace] and [encode] leave alone. *)
Definition plain (c : N) : bool := (c <? 0x80) && negb (c =? LF).

(** The template up to the first field and after the second one. *)
Definition template_head : pystr := str
"HTTP/1.1 200 OK
CACHE-CONTROL: max-age=60
EXT:
LOCATION: http://".

Definition template_tail : pystr := str
"/description.xml
SERVER: FreeRTOS/6.0.5, UPnP/1.0, IpBridge/0.1
hue-bridgeid: 1234
ST: urn:schemas-upnp-org:device:basic:1
USN: uuid:Socket-1_0-221438K0100073::urn:schemas-upnp-org:device:basic:1

".

(** Every [sendto] of the trace carries [payload]. *)
Definition sends_only (payload : list byte) (t : trace) : Prop :=
  forall v p dest o, In (SendTo v p dest, o) t -> p = payload.

(** Environments: nothing arrives and nothing fails; a datagram arrives;
    [sendto] raises; a call of the set-up raises; [select] raises. *)
Definition quiet : env :=
  {| setup_fault := None; polled := timed_out; reply_fault := None |}.

Definition receives (payload : list byte) (src : address) : env :=
  {| setup_fault := None; polled := datagram payload src;
     reply_fault := None |}.

Definition send_fails : env :=
  {| setup_fault := None; polled := timed_out;
     reply_fault := Some on_sendto |}.

Definition setup_fails (k : setup_call) : env :=
  {| setup_fault := Some k; polled := timed_out; reply_fault := None |}.

Definition wait_fails : env :=
  {| setup_fault := None; polled := select_raises; reply_fault := None |}.

(** The responder of the specification's scenario, and a client. *)
Definition hub : UPNPResponderThread :=
  match __init__ (str "192.168.1.2") 1900 true (str "10.0.0.5") 8300 with
  | Some r => r
  | None =>
      {| host_ip_addr := []; listen_port := 0; upnp_bind_multicast := true;
         upnp_response := []; _interrupted := false |}
  end.

Definition client : address := (str "192.168.1.50", 5353%Z).

(** The thread has set up its socket, found the flag clear and received
    [payload] from [client]. *)
Definition hub_received (payload : list byte) : state :=
  exec (started hub)
       [thread quiet; thread quiet; thread (receives payload client)].

(** A datagram of 1024 letters followed by "M-SEARCH". *)
Definition late_marker : list byte := repeat x41 1024 ++ bytes "M-SEARCH".

(** The calls of a trace that is neither polling nor receiving nor
    sending. *)
Definition never_listened (t : trace) : Prop :=
  forall c o, In (c, o) t ->
    match c with
    | Select _ _ | RecvFrom _ _ | SendTo _ _ _ => False
    | _ => True
    end.

(** The same object with another [listen_port]. *)
Definition with_listen_port (p : Z) (r : UPNPResponderThread)
  : UPNPResponderThread :=
  {| host_ip_addr := host_ip_addr r;
     listen_port := p;
     upnp_bind_multicast := upnp_bind_multicast r;
     upnp_response := upnp_response r;
     _interrupted := _interrupted r |}.

Definition relabel (p : Z) (s : state) : state :=
  {| self := with_listen_port p (self s); at_pc := at_pc s;
     log := log s; sup := sup s |}.

(** Where the listening socket may be bound. *)
Definition binds_only (host : pystr) (port : Z) (t : trace) : Prop :=
  forall v host' port' o,
    In (Bind v host' port', o) t ->
    v = ssdp_socket /\ host' = host /\ port' = port.

(** The thread is in the loop. *)
Definition alive (p : pc) : bool :=
  match p with
  | at_loop_top | at_select | at_except | at_handle _ _ => true
  | _ => false
  end.

(** What holds in every state of a run. *)
Record run_invariant (s : state) : Prop := {
  inv_setup : at_pc s = at_setup -> log s = [];
  inv_alive :
    alive (at_pc s) = true -> open_count ssdp_socket 0 (log s) = 1%nat;
  inv_returned :
    at_pc s = returned ->
    _interrupted (self s) = true
    /\ open_count ssdp_socket 0 (log s) = 0%nat
    /\ exists t, log s = t ++ clean_socket_close ssdp_socket;
  inv_joining : sup s <> idle -> _interrupted (self s) = true;
  inv_stopped : sup s = stop_returned -> finished (at_pc s) = true
}.

(** ** The HTTP views of the component

    [DescriptionXmlView] and [HueConfigView] of
    [homeassistant/components/emulated_hue/upnp.py]. *)

(** Modelled from the spec: the configuration object that the views hold
    ([self.config]) is declared in another file of the component.  The
    views read two attributes of it, the advertise address (a [str]) and
    the advertise port (an [int]). *)
Record Config := {
  advertise_ip : pystr;
  advertise_port : Z
}.

(** What is passed by keyword to [str.format]. *)
Inductive pyvalue :=
| VStr (s : pystr)
| VConfig (c : Config).

Fixpoint pystr_eqb (a b : pystr) : bool :=
  match a, b with
  | [], [] => true
  | x :: a', y :: b' => (x =? y) && pystr_eqb a' b'
  | _, _ => false
  end.

(** [getattr(v, name)]; [None] stands for [AttributeError]. *)
Definition getattr (v : pyvalue) (name : pystr) : option pyvalue :=
  match v with
  | VConfig c =>
      if pystr_eqb name (str "advertise_ip") then Some (VStr (advertise_ip c))
      else if pystr_eqb name (str "advertise_port")
           then Some (VStr (str_of_int (advertise_port c)))
           else None
  | VStr _ => None
  end.

Fixpoint kwarg (kwargs : list (pystr * pyvalue)) (name : pystr)
  : option pyvalue :=
  match kwargs with
  | [] => None
  | (k, v) :: kwargs' => if pystr_eqb k name then Some v else kwarg kwargs' name
  end.

(** A field name is an argument name, optionally followed by a dot and an
    attribute name: the text before the first dot and the text after it. *)
Fixpoint split_dot (name : pystr) : pystr * option pystr :=
  match name with
  | [] => ([], None)
  | c :: name' =>
      if c =? 46 then ([], Some name')
      else let (a, b) := split_dot name' in (c :: a, b)
  end.

(** The text that replaces the field [name].  A whole configuration object
    is never formatted by the templates, so its [str()] is left out. *)
Definition field_text (kwargs : list (pystr * pyvalue)) (name : pystr)
  : option pystr :=
  let (arg, attr) := split_dot name in
  match kwarg kwargs arg with
  | None => None
  | Some v =>
      match match attr with
            | None => Some v
            | Some a => getattr v a
            end with
      | Some (VStr s) => Some s
      | _ => None
      end
  end.

(** [template.format] called with keyword arguments, for templates made
    of literal text and of fields [{name}] and [{name.attribute}].  [field] holds the characters
    of the field being read, last one first.  [None] where Python raises
    (a brace out of place, an unknown name or attribute). *)
Fixpoint format_kw_from (kwargs : list (pystr * pyvalue))
         (field : option pystr) (t : pystr) : option pystr :=
  match t with
  | [] =>
      match field with
      | None => Some []
      | Some _ => None
      end
  | c :: t' =>
      match field with
      | None =>
          if c =? 123 then format_kw_from kwargs (Some []) t'
          else if c =? 125 then None
          else option_map (cons c) (format_kw_from kwargs None t')
      | Some name =>
          if c =? 125 then
            match field_text kwargs (rev name) with
            | Some s => option_map (app s) (format_kw_from kwargs None t')
            | None => None
            end
          else if c =? 123 then None
          else format_kw_from kwargs (Some (c :: name)) t'
      end
  end.

Definition format_kw (t : pystr) (kwargs : list (pystr * pyvalue))
  : option pystr :=
  format_kw_from kwargs None t.

Definition BRIDGE_FRIENDLY_NAME_TEMPLATE : pystr :=
  str "HASS Bridge ({c.advertise_ip})".

(** The double quote, which the document below contains. *)
Definition dq : pystr := [34].

Definition xml_template : pystr :=
  str "<?xml version=" ++ dq ++ str "1.0" ++ dq
  ++ str " encoding=" ++ dq ++ str "UTF-8" ++ dq ++ str " ?>
<root xmlns=" ++ dq ++ str "urn:schemas-upnp-org:device-1-0" ++ dq ++ str ">
<specVersion>
<major>1</major>
<minor>0</minor>
</specVersion>
<URLBase>http://{c.advertise_ip}:{c.advertise_port}/</URLBase>
<device>
<deviceType>urn:schemas-upnp-org:device:Basic:1</deviceType>
<friendlyName>{friendly_name}</friendlyName>
<manufacturer>Royal Philips Electronics</manufacturer>
<manufacturerURL>http://www.philips.com</manufacturerURL>
<modelDescription>Philips hue Personal Wireless Lighting</modelDescription>
<modelName>Philips hue bridge 2015</modelName>
<modelNumber>BSB002</modelNumber>
<modelURL>http://www.meethue.com</modelURL>
<serialNumber>1234</serialNumber>
<UDN>uuid:2f402f80-da50-11e1-9b23-001788255acc</UDN>
</device>
</root>
".

(** [web.Response(text=..., content_type=...)].  The constructor encodes
    the text into the body of the response, with the charset of the
    response, which is utf-8 when none is given; [None] stands for the
    [UnicodeEncodeError] it raises when the text cannot be encoded. *)
Record Response := {
  text : pystr;
  body : list byte;
  content_type : pystr
}.

Definition web_Response (text content_type : pystr) : option Response :=
  match encode_utf8 text with
  | Some b => Some {| text := text; body := b; content_type := content_type |}
  | None => None
  end.

(** [DescriptionXmlView.url] *)
Definition description_url : pystr := str "/description.xml".

(** The address and port the component advertises, as a URL prefix, and
    the name it gives the bridge. *)
Definition origin (c : Config) : pystr :=
  str "http://" ++ advertise_ip c ++ str ":" ++ str_of_int (advertise_port c).

Definition friendly_name_of (c : Config) : pystr :=
  str "HASS Bridge (" ++ advertise_ip c ++ str ")".

(** [DescriptionXmlView.get]; the request is not read.  [None] when
    [format] or [web.Response] raises. *)
Definition DescriptionXmlView_get (config : Config) : option Response :=
  match format_kw BRIDGE_FRIENDLY_NAME_TEMPLATE [(str "c", VConfig config)] with
  | None => None
  | Some friendly_name =>
      match format_kw xml_template
              [(str "c", VConfig config);
               (str "friendly_name", VStr friendly_name)] with
      | None => None
      | Some resp_text => web_Response resp_text (str "text/xml")
      end
  end.

(** The values of the dictionary that [gen_config] builds. *)
#[warnings="-register-all"] Inductive cfg_value :=
| CStr (s : pystr)
| CBool (b : bool)
| CInt (n : Z)
| CDict (d : list (pystr * cfg_value)).

(** [s.upper()] on ASCII text: the letters a to z are shifted to A to Z,
    every other ASCII character is kept.  (The only string it is applied
    to is an ASCII constant.) *)
Definition upper (s : pystr) : pystr :=
  map (fun c => if (97 <=? c) && (c <=? 122) then c - 32 else c) s.

(** [s.replace(old, '')] for a pattern [old] of one character. *)
Definition remove_char (old : N) (s : pystr) : pystr :=
  filter (fun c => negb (c =? old)) s.

Fixpoint cfg_lookup (d : list (pystr * cfg_value)) (key : pystr)
  : option cfg_value :=
  match d with
  | [] => None
  | (k, v) :: d' => if pystr_eqb k key then Some v else cfg_lookup d' key
  end.

(** [HueConfigView.gen_config]; [None] when [format] raises. *)
Definition gen_config (config : Config) : option (list (pystr * cfg_value)) :=
  let mac := str "04:f0:21:24:28:28" in
  match format_kw BRIDGE_FRIENDLY_NAME_TEMPLATE [(str "c", VConfig config)] with
  | None => None
  | Some friendly_name =>
      Some
        [ (str "name", CStr friendly_name);
          (str "mac", CStr mac);
          (str "bridgeid", CStr (remove_char 58 (upper mac)));
          (str "modelid", CStr (str "BSB002"));
          (str "swversion", CStr (str "81012917"));
          (str "portalservice", CBool false);
          (str "linkbutton", CBool true);
          (str "dhcp", CBool true);
          (str "ipaddress", CStr (advertise_ip config));
          (str "netmask", CStr (str "255.255.255.0"));
          (str "gateway", CStr (str "192.168.20.254"));
          (str "apiversion", CStr (str "1.3.0"));
          (str "timezone", CStr (str "America/Los_Angeles"));
          (str "whitelist",
            CDict [(str "api",
                    CDict [(str "name", CStr (str "clientname#devicename"))])]);
          (str "swupdate",
            CDict [(str "text", CStr (str ""));
                   (str "notify", CBool false);
                   (str "updatestate", CInt 0);
                   (str "url", CStr (str ""))]) ]
  end.

(** ** More notions about runs *)


(** A datagram that the responder takes for a query: "M-SEARCH" occurs in
    the text of its first 1024 bytes. *)
Definition is_query (payload : list byte) : bool :=
  str_contains (decode_utf8_ignore (firstn 1024 payload)) M_SEARCH.




(** With the flag set: how many steps the thread is from its end, and how
    many replies it can still send. *)
Definition steps_to_end (p : pc) : nat :=
  match p with
  | at_select => 3
  | at_setup | at_handle _ _ => 2
  | at_loop_top | at_except => 1
  | returned | raised => 0
  end.

Definition replies_to_come (p : pc) : nat :=
  match p with
  | at_select | at_handle _ _ => 1
  | _ => 0
  end.

(** How many sockets a run may hold open. *)
Record socket_bounds (s : state) : Prop := {
  reply_closed :
    at_pc s <> raised -> open_count resp_socket 0 (log s) = 0%nat;
  reply_at_most_one : (open_count resp_socket 0 (log s) <= 1)%nat;
  listening_at_most_one : (open_count ssdp_socket 0 (log s) <= 1)%nat
}.

(** ** The history average sensor

    The part of [homeassistant/components/sensor/history_average.py] that
    decides the period of the measure: [exactly_two_period_keys],
    [setup_platform], [HistoryAverageSensor.update_period] and
    [HistoryAverageHelper.handle_template_exception].  Dates, durations and
    templates are values of other modules: their types are parameters, the
    two operations on dates are given with them, and what a template
    renders to is decided by the environment. *)

Definition CONF_START : pystr := str "start".
Definition CONF_END : pystr := str "end".
Definition CONF_DURATION : pystr := str "duration".
Definition CONF_PERIOD_KEYS : list pystr :=
  [CONF_START; CONF_END; CONF_DURATION].

(** Python exceptions, by class.  A name stands for the class and its
    subclasses, as an [except] clause takes them: [ValueError] for a
    [UnicodeError] or a [json.JSONDecodeError] too.  [OSError] is taken
    without [FileNotFoundError], which has its own name, and [OtherError]
    stands for every class that is none of the others. *)
Inductive exn :=
| AttributeError
| TypeError
| ValueError
| OverflowError
| TemplateError
| FileNotFoundError
| OSError
| OtherError.

(** [except (TemplateError, TypeError)] and [except ValueError] *)
Definition is_template_error (e : exn) : bool :=
  match e with
  | TemplateError | TypeError => true
  | _ => false
  end.

Definition is_value_error (e : exn) : bool :=
  match e with
  | ValueError => true
  | _ => false
  end.

(** An argument of an exception, as [handle_template_exception] uses it:
    a [str], or another object, of which only what [.startswith(...)] does
    on it matters: it raises ([AttributeError] when the object has no
    such attribute, as a number has none), or returns a value that is
    true or not. *)
Inductive arg :=
| ArgStr (s : pystr)
| ArgObject (startswith_gives : exn + bool).

(** What is written to the logger and to the standard output. *)
Inductive report :=
| Warning (args : list arg)             (* _LOGGER.warning(ex) *)
| ErrorField (field : string)           (* "Error parsing template for field %s" *)
| ErrorEx (args : list arg)             (* _LOGGER.error(ex) *)
| ErrorMsg (msg : string)               (* _LOGGER.error(msg) *)
| Print.                                (* print(float(end_rendered)) *)

Section history_average.

Variables datetime timedelta template : Type.

(** [d + t] and [d - t]; [None] stands for [OverflowError], which the
    date raises when the result is out of its range. *)
Variable plus minus : datetime -> timedelta -> option datetime.

(** What the schema lets through under the three period keys. *)
Inductive conf_value :=
| Template (t : template)
| Timedelta (d : timedelta).

(** The configuration, a dictionary: each key is bound to a value or to
    [None]. *)
Definition conf := list (pystr * option conf_value).

(** [conf[key]], with the outer [None] for a key that is not in the
    dictionary. *)
Fixpoint conf_lookup (c : conf) (key : pystr)
  : option (option conf_value) :=
  match c with
  | [] => None
  | (k, v) :: c' => if pystr_eqb k key then Some v else conf_lookup c' key
  end.

(** [param in conf and conf[param] is not None] *)
Definition provided (c : conf) (param : pystr) : bool :=
  match conf_lookup c param with
  | Some (Some _) => true
  | _ => false
  end.

(** [exactly_two_period_keys]; [None] stands for [vol.Invalid]. *)
Definition exactly_two_period_keys (c : conf) : option conf :=
  let n :=
    fold_left (fun provided_so_far param =>
                 if provided c param then S provided_so_far
                 else provided_so_far)
              CONF_PERIOD_KEYS O in
  if Nat.eqb n 2 then Some c else None.

(** What the schema guarantees before [exactly_two_period_keys] is
    called: [start] and [end] are templates, [duration] is a period of
    time, each unless it is [None]. *)
Definition schema_typed (c : conf) : Prop :=
  (forall d, conf_lookup c CONF_START <> Some (Some (Timedelta d)))
  /\ (forall d, conf_lookup c CONF_END <> Some (Some (Timedelta d)))
  /\ (forall t, conf_lookup c CONF_DURATION <> Some (Some (Template t))).

(** [config.get(key)] *)
Definition conf_get (c : conf) (key : pystr) : option conf_value :=
  match conf_lookup c key with
  | Some v => v
  | None => None
  end.

(** The attributes of the sensor that [update_period] reads and
    writes. *)
Record HistoryAverageSensor := {
  _duration : option conf_value;
  _start : option conf_value;
  _end : option conf_value;
  _period : datetime * datetime
}.

(** [setup_platform] and [HistoryAverageSensor.__init__]: the sensor made
    from a configuration.  [now1] and [now2] are the two readings of the
    clock that make the first period. *)
Definition setup_platform (config : conf) (now1 now2 : datetime)
  : HistoryAverageSensor :=
  {| _duration := conf_get config CONF_DURATION;
     _start := conf_get config CONF_START;
     _end := conf_get config CONF_END;
     _period := (now1, now2) |}.

(** What rendering a template and reading the text as a time give: the
    first call that raises, with the exception, or the time that was
    read. *)
Inductive rendered :=
| render_raises (e : exn) (args : list arg)
    (* render() raises e, and e.args is args *)
| parse_raises (e : exn)
    (* render() returns a text; parse_datetime raises *)
| is_datetime (d : datetime)
    (* parse_datetime recognises the text *)
| float_raises (e : exn)
    (* parse_datetime returns None; float() raises *)
| timestamp_raises (e : exn)
    (* float() returns; utc_from_timestamp raises *)
| is_timestamp (d : datetime).
    (* float() and utc_from_timestamp return d *)

Variable render : template -> rendered.

(** What [print] does: it returns, or it raises. *)
Variable print_raises : option exn.

(** [HistoryAverageHelper.handle_template_exception]; [args] is
    [ex.args].  The exception is the one of [ex.args[0].startswith]. *)
Definition handle_template_exception (args : list arg) (field : string)
  : exn + list report :=
  match args with
  | [] => inr [ErrorField field; ErrorEx args]
  | ArgStr a :: _ =>
      if startswith a (str "UndefinedError: 'None' has no attribute")
      then inr [Warning args]
      else inr [ErrorField field; ErrorEx args]
  | ArgObject (inl e) :: _ => inl e
  | ArgObject (inr true) :: _ => inr [Warning args]
  | ArgObject (inr false) :: _ => inr [ErrorField field; ErrorEx args]
  end.

(** How one of the two blocks "Parse start" and "Parse end" ends. *)
Inductive parsed :=
| goes_on (d : option datetime) (out : list report)
| gives_up (out : list report)            (* return *)
| fails (e : exn) (out : list report).

(** [except ValueError] around the conversion of a number: the message is
    logged and the method returns; another exception goes on. *)
Definition except_ValueError (e : exn) (out : list report) (msg : string)
  : parsed :=
  if is_value_error e then gives_up (out ++ [ErrorMsg msg]) else fails e out.

(** The block for [field]; [printing] tells the block of [end], which
    prints the number before converting it, from the block of [start];
    [msg] is the message of the block.  [parse_datetime] is called
    outside the [try] statements: what it raises leaves the method. *)
Definition parse_block (configured : option conf_value) (field : string)
           (printing : bool) (msg : string) : parsed :=
  let printed := if printing then [Print] else [] in
  let print := if printing then print_raises else None in
  match configured with
  | None => goes_on None []
  | Some (Timedelta _) => fails AttributeError []
  | Some (Template t) =>
      match render t with
      | render_raises e args =>
          if is_template_error e then
            match handle_template_exception args field with
            | inl e' => fails e' []
            | inr out => gives_up out
            end
          else fails e []
      | parse_raises e => fails e []
      | is_datetime d => goes_on (Some d) []
      | float_raises e => except_ValueError e [] msg
      | timestamp_raises e =>
          match print with
          | Some e' => except_ValueError e' [] msg
          | None => except_ValueError e printed msg
          end
      | is_timestamp d =>
          match print with
          | Some e' => except_ValueError e' [] msg
          | None => goes_on (Some d) printed
          end
      end
  end.

(** [d op self._duration] where [d] may be [None]. *)
Definition with_duration (op : datetime -> timedelta -> option datetime)
           (d : option datetime) (duration : option conf_value)
  : exn + datetime :=
  match d, duration with
  | Some d', Some (Timedelta t) =>
      match op d' t with
      | Some r => inr r
      | None => inl OverflowError
      end
  | _, _ => inl TypeError
  end.

(** [HistoryAverageSensor.update_period]: the sensor afterwards, the
    exception that left the method if one did, and what was reported. *)
Definition update_period (self : HistoryAverageSensor)
  : HistoryAverageSensor * option exn * list report :=
  match parse_block (_start self) "start" false
          "Parsing error: start must be a datetimeor a timestamp" with
  | fails e out => (self, Some e, out)
  | gives_up out => (self, None, out)
  | goes_on start out1 =>
      match parse_block (_end self) "end" true
              "Parsing error: end must be a datetime or a timestamp" with
      | fails e out => (self, Some e, out1 ++ out)
      | gives_up out => (self, None, out1 ++ out)
      | goes_on end_ out2 =>
          match match start with
                | Some s => inr s
                | None => with_duration minus end_ (_duration self)
                end with
          | inl e => (self, Some e, out1 ++ out2)
          | inr s =>
              match match end_ with
                    | Some e => inr e
                    | None => with_duration plus (Some s) (_duration self)
                    end with
              | inl e => (self, Some e, out1 ++ out2)
              | inr e =>
                  ({| _duration := _duration self;
                      _start := _start self;
                      _end := _end self;
                      _period := (s, e) |}, None, out1 ++ out2)
              end
          end
      end
  end.

End history_average.

Arguments Template {_ _}.
Arguments Timedelta {_ _}.
Arguments conf_lookup {_ _}.
Arguments provided {_ _}.
Arguments exactly_two_period_keys {_ _}.
Arguments conf_get {_ _}.
Arguments schema_typed {_ _}.
Arguments setup_platform {_ _ _}.
Arguments update_period {_ _ _}.
Arguments parse_block {_ _ _}.
Arguments with_duration {_ _ _}.
Arguments _duration {_ _ _}.
Arguments _start {_ _ _}.
Arguments _end {_ _ _}.
Arguments _period {_ _ _}.
Arguments except_ValueError {_}.
Arguments render_raises {_}.
Arguments parse_raises {_}.
Arguments is_datetime {_}.
Arguments float_raises {_}.
Arguments timestamp_raises {_}.
Arguments is_timestamp {_}.
Arguments goes_on {_}.
Arguments gives_up {_}.
Arguments fails {_}.

(** A scenario: dates and durations counted in seconds, and templates.
    The first renders to the date 1000, the second to a text that is no
    time, the third to a date that does not exist, the fourth cannot be
    rendered for a reason that has no text, the others cannot be rendered
    while the entities are not yet known. *)
Definition demo_render (t : nat) : rendered Z :=
  match t with
  | 0%nat => is_datetime 1000%Z
  | 1%nat => float_raises ValueError
  | 2%nat => parse_raises ValueError
  | 3%nat => render_raises TypeError [ArgObject (inl AttributeError)]
  | _ =>
      render_raises TemplateError
        [ArgStr (str "UndefinedError: 'None' has no attribute 'state'")]
  end.

Definition demo_plus (d t : Z) : option Z := Some (d + t)%Z.
Definition demo_minus (d t : Z) : option Z := Some (d - t)%Z.

Definition demo_conf (start : nat) : list (pystr * option (conf_value Z nat)) :=
  [ (str "entity_id", None);
    (CONF_START, Some (Template start));
    (CONF_END, None);
    (CONF_DURATION, Some (Timedelta 60%Z)) ].

(** ** JSON files

    [load_json] and [save_json] of [homeassistant/util/json.py].  The [json]
    module is a parameter: the type of the data it handles, the empty
    dictionary, what [json.load] gives on a file and what [json.dumps]
    gives on the data.  No other keyword argument is passed on to them. *)

(** A name of the file system: no file of that name in an existing
    directory; a name in a directory that does not exist; a file that
    holds a text; a file that [open] accepts and that cannot be read as
    text, reading it raising the exception given; or something that [open]
    refuses with an error other than [FileNotFoundError] (a directory, a
    file without permission). *)
Inductive file :=
| no_file
| no_directory
| text_file (content : pystr)
| unreadable (e : exn)
| refused.

Definition filesystem := pystr -> file.

(** The file [name] holds exactly [content]; the others are untouched. *)
Definition write_file (fs : filesystem) (name content : pystr) : filesystem :=
  fun n => if pystr_eqb n name then text_file content else fs n.

(** What happens once [open(filename, 'w+')] has returned, the file being
    empty from then on: the text is written and the file is closed; or one
    of [seek], [write], [truncate] and the closing of the file raises, and
    the file holds what had reached it by then. *)
Inductive writing :=
| written
| write_raises (e : exn) (remains : pystr).

Section json_files.

Variable json : Type.
Variable empty_dict : json.

(** [json.load(fh)] on a file that holds the text given: the data, or the
    exception of reading or parsing it. *)
Variable json_load : pystr -> exn + json.

(** [json.dumps(data, sort_keys=..., indent=...)]: the text, or the
    exception ([TypeError] for data that are not JSON, [ValueError] for
    data that contain themselves). *)
Variable json_dumps : json -> bool -> Z -> exn + pystr.

(** [except FileNotFoundError] around the [with] statement of
    [load_json]: the result, and whether the debug message was logged. *)
Definition except_FileNotFoundError (r : exn + json) : (exn + json) * bool :=
  match r with
  | inl FileNotFoundError => (inr empty_dict, true)
  | _ => (r, false)
  end.

(** [load_json(filename)]: the data or the exception, and whether the
    debug message about a missing file was logged. *)
Definition load_json (fs : filesystem) (filename : pystr)
  : (exn + json) * bool :=
  except_FileNotFoundError
    match fs filename with
    | no_file | no_directory => inl FileNotFoundError
    | refused => inl OSError
    | unreadable e => inl e
    | text_file content => json_load content
    end.

(** [save_json(filename, data, sort_keys, indent)]: the number that is
    returned or the exception, and the file system afterwards.  The text
    is made before the file is opened; mode ['w+'] empties the file or
    creates it, and the text is written from its start.  [w] tells how
    the writing goes. *)
Definition save_json (fs : filesystem) (w : writing) (filename : pystr)
           (data : json) (sort_keys : bool) (indent : Z)
  : (exn + nat) * filesystem :=
  match json_dumps data sort_keys indent with
  | inl e => (inl e, fs)
  | inr json_data =>
      match fs filename with
      | refused => (inl OSError, fs)
      | no_directory => (inl FileNotFoundError, fs)
      | no_file | text_file _ | unreadable _ =>
          match w with
          | written =>
              (inr (List.length json_data), write_file fs filename json_data)
          | write_raises e remains => (inl e, write_file fs filename remains)
          end
      end
  end.

End json_files.

Arguments except_FileNotFoundError {_}.
Arguments load_json {_}.
Arguments save_json {_}.

(** A scenario: the data are texts, written between brackets. *)
Definition demo_dumps (data : pystr) (sort_keys : bool) (indent : Z)
  : exn + pystr :=
  inr (str "[" ++ data ++ str "]").

Definition demo_load (content : pystr) : exn + pystr :=
  match content with
  | 91 :: rest =>
      match rev rest with
      | 93 :: middle => inr (rev middle)
      | _ => inl ValueError
      end
  | _ => inl ValueError
  end.

(** One file, and nothing else. *)
Definition demo_fs : filesystem :=
  fun n =>
    if pystr_eqb n (str "old.json")
    then text_file (str "[a much longer text than the new one]")
    else no_file.

(** * Properties *)

(** ** Bytes and strings *)

Lemma to_N_byte_of_N (n : N) : Byte.to_N (byte_of_N n) = n mod 256.
Proof.
  unfold byte_of_N.
  destruct (Byte.of_N (n mod 256)) as [b|] eqn:E.
  - now apply Byte.to_of_N.
  - apply Byte.of_N_None_iff in E.
    pose proof (N.mod_upper_bound n 256). lia.
Qed.

Lemma to_N_byte_of_N_small (n : N) : n < 256 -> Byte.to_N (byte_of_N n) = n.
Proof. intros H. rewrite to_N_byte_of_N. now apply N.mod_small. Qed.



Lemma replace_lf_crlf_app (a b : pystr) :
  replace_lf_crlf (a ++ b) = replace_lf_crlf a ++ replace_lf_crlf b.
Proof.
  induction a as [|c a IH]; simpl; [reflexivity|].
  destruct (c =? LF); simpl; now rewrite IH.
Qed.

Lemma encode_utf8_app (a b : pystr) :
  encode_utf8 (a ++ b) =
  match encode_utf8 a, encode_utf8 b with
  | Some x, Some y => Some (x ++ y)
  | _, _ => None
  end.
Proof.
  induction a as [|c a IH]; simpl.
  - now destruct (encode_utf8 b).
  - rewrite IH.
    destruct (encode_char c), (encode_utf8 a), (encode_utf8 b);
      try reflexivity.
    now rewrite app_assoc.
Qed.

Lemma encode_utf8_ascii (s : pystr) :
  all_ascii s = true -> encode_utf8 s = Some (map byte_of_N s).
Proof.
  induction s as [|c s IH]; simpl; [reflexivity|].
  intros H. apply andb_prop in H as [Hc Hs].
  unfold encode_char. rewrite Hc, (IH Hs). reflexivity.
Qed.








(** ** The precomputed reply *)

Lemma plain_replace (s : pystr) :
  forallb plain s = true -> replace_lf_crlf s = s.
Proof.
  induction s as [|c s IH]; simpl; [reflexivity|].
  intros H. apply andb_prop in H as [Hc Hs].
  apply andb_prop in Hc as [_ Hc]. apply negb_true_iff in Hc.
  now rewrite Hc, IH.
Qed.

Lemma plain_ascii (s : pystr) : forallb plain s = true -> all_ascii s = true.
Proof.
  unfold all_ascii. induction s as [|c s IH]; simpl; [reflexivity|].
  intros H. apply andb_prop in H as [Hc Hs].
  apply andb_prop in Hc as [Hc _]. now rewrite Hc, IH.
Qed.

Lemma plain_encode (s : pystr) :
  forallb plain s = true ->
  encode_utf8 (replace_lf_crlf s) = Some (map byte_of_N s).
Proof.
  intros H. rewrite (plain_replace s H).
  now apply encode_utf8_ascii, plain_ascii.
Qed.

Lemma string_of_uint_plain (d : Decimal.uint) :
  forallb plain (str (NilEmpty.string_of_uint d)) = true.
Proof. induction d; simpl; try reflexivity; exact IHd. Qed.

Lemma string_of_uint_plain0 (d : Decimal.uint) :
  forallb plain (str (NilZero.string_of_uint d)) = true.
Proof. destruct d; try reflexivity; exact (string_of_uint_plain _). Qed.

Lemma str_of_int_plain (n : Z) : forallb plain (str_of_int n) = true.
Proof.
  unfold str_of_int, NilZero.string_of_int.
  destruct (Z.to_int n) as [d|d]; [|simpl]; apply string_of_uint_plain0.
Qed.

Lemma format_resp_template (a0 a1 : pystr) :
  format resp_template [a0; a1]
  = Some (template_head ++ a0 ++ str ":" ++ a1 ++ template_tail).
Proof. reflexivity. Qed.

Lemma build_response_eq (advertise_ip : pystr) (advertise_port : Z) :
  build_response advertise_ip advertise_port =
  match encode_utf8 (replace_lf_crlf advertise_ip) with
  | Some ip =>
      Some (expected_reply ip (map byte_of_N (str_of_int advertise_port)))
  | None => None
  end.
Proof.
  unfold build_response. rewrite format_resp_template.
  rewrite !replace_lf_crlf_app, !encode_utf8_app.
  rewrite (plain_encode (str_of_int advertise_port))
    by apply str_of_int_plain.
  replace (encode_utf8 (replace_lf_crlf template_head))
    with (Some (crlf_lines ["HTTP/1.1 200 OK"; "CACHE-CONTROL: max-age=60";
                            "EXT:"] ++ bytes "LOCATION: http://"))
    by (vm_compute; reflexivity).
  replace (encode_utf8 (replace_lf_crlf (str ":")))
    with (Some (bytes ":")) by (vm_compute; reflexivity).
  replace (encode_utf8 (replace_lf_crlf template_tail))
    with (Some (bytes "/description.xml" ++ crlf ++
                crlf_lines
                  ["SERVER: FreeRTOS/6.0.5, UPnP/1.0, IpBridge/0.1";
                   "hue-bridgeid: 1234";
                   "ST: urn:schemas-upnp-org:device:basic:1";
                   "USN: uuid:Socket-1_0-221438K0100073::urn:schemas-upnp-org:device:basic:1";
                   ""]))
    by (vm_compute; reflexivity).
  destruct (encode_utf8 (replace_lf_crlf advertise_ip)) as [ip|];
    [|reflexivity].
  unfold expected_reply. now rewrite <- !app_assoc.
Qed.


Lemma __init___response h lp m ip port r :
  __init__ h lp m ip port = Some r ->
  build_response ip port = Some (upnp_response r).
Proof.
  unfold __init__. destruct (build_response ip port); [|discriminate].
  now intros [= <-].
Qed.




(** ** Runs of the responder *)

Ltac step_cases :=
  unfold thread_step, handle, goto;
  repeat match goal with
    | |- context [match at_pc ?s with _ => _ end] =>
        destruct (at_pc s) eqn:?
    | |- context [let (_, _) := perform ?f ?c in _] =>
        destruct (perform f c) as [? []] eqn:?
    | |- context [if _interrupted ?r then _ else _] =>
        destruct (_interrupted r) eqn:?
    | |- context [match polled ?e with _ => _ end] =>
        destruct (polled e) eqn:?
    | |- context [if str_contains ?a ?b then _ else _] =>
        destruct (str_contains a b) eqn:?
    | |- context [match reply_fault ?e with _ => _ end] =>
        destruct (reply_fault e) as [[]|] eqn:?
    end;
  cbn [self at_pc log sup].

Ltac sup_cases :=
  repeat match goal with
    | |- context [match sup ?s with _ => _ end] => destruct (sup s) eqn:?
    | |- context [if finished ?p then _ else _] => destruct (finished p) eqn:?
    end;
  cbn [self at_pc log sup].

Lemma exec_app (s : state) (evs evs' : list event) :
  exec s (evs ++ evs') = exec (exec s evs) evs'.
Proof. apply fold_left_app. Qed.

Lemma exec_invariant (P : state -> Prop) :
  (forall s ev, P s -> P (step s ev)) ->
  forall evs s, P s -> P (exec s evs).
Proof.
  intros Hstep. induction evs as [|ev evs IH]; intros s Hs; simpl.
  - exact Hs.
  - apply IH, Hstep, Hs.
Qed.

(** The thread never assigns an attribute of the object. *)
Lemma thread_step_self (e : env) (s : state) :
  self (thread_step e s) = self s /\ sup (thread_step e s) = sup s.
Proof. step_cases; split; reflexivity. Qed.

Lemma thread_step_log (e : env) (s : state) :
  exists t, log (thread_step e s) = log s ++ t.
Proof.
  step_cases; try (eexists; reflexivity);
    exists []; now rewrite app_nil_r.
Qed.

Lemma step_log (s : state) (ev : event) :
  exists t, log (step s ev) = log s ++ t.
Proof.
  destruct ev as [e| |]; simpl.
  - apply thread_step_log.
  - sup_cases; exists []; now rewrite app_nil_r.
  - sup_cases; exists []; now rewrite app_nil_r.
Qed.

Lemma step_upnp_response (s : state) (ev : event) :
  upnp_response (self (step s ev)) = upnp_response (self s).
Proof.
  destruct ev as [e| |]; simpl.
  - now rewrite (proj1 (thread_step_self e s)).
  - sup_cases; reflexivity.
  - sup_cases; reflexivity.
Qed.

(** A finished thread does nothing more. *)
Lemma thread_step_finished (e : env) (s : state) :
  finished (at_pc s) = true -> thread_step e s = s.
Proof.
  unfold thread_step. destruct (at_pc s); try discriminate; reflexivity.
Qed.

Lemma step_finished (s : state) (ev : event) :
  finished (at_pc s) = true ->
  at_pc (step s ev) = at_pc s /\ log (step s ev) = log s.
Proof.
  intros H. destruct ev as [e| |]; simpl.
  - now rewrite thread_step_finished.
  - sup_cases; now split.
  - sup_cases; now split.
Qed.

Lemma exec_finished (evs : list event) (s : state) :
  finished (at_pc s) = true ->
  at_pc (exec s evs) = at_pc s /\ log (exec s evs) = log s.
Proof.
  revert s. induction evs as [|ev evs IH]; intros s H; simpl.
  - now split.
  - destruct (step_finished s ev H) as [Hp Hl].
    destruct (IH (step s ev)) as [Hp' Hl']; [now rewrite Hp|].
    split; congruence.
Qed.

(** The calls of straight-line code are those written in it. *)
Lemma perform_calls (fault : option setup_call) (cs : list (setup_call * call))
      (c : call) (o : outcome) :
  In (c, o) (fst (perform fault cs)) -> In c (map snd cs).
Proof.
  induction cs as [|[k c'] cs IH]; simpl; [tauto|].
  destruct (match fault with Some f => setup_call_eqb f k | None => false end).
  - simpl. intros [[= <- _]|[]]. now left.
  - destruct (perform fault cs) as [t r]. simpl in *.
    intros [[= <- _]|H]; [now left|right; now apply IH].
Qed.

Lemma sent_app (t t' : trace) : sent (t ++ t') = sent t ++ sent t'.
Proof.
  induction t as [|[c o] t IH]; simpl; [reflexivity|].
  destruct c; try exact IH. destruct o; [simpl; now rewrite IH|exact IH].
Qed.

Lemma open_count_app (v : sock) (n : nat) (t t' : trace) :
  open_count v n (t ++ t') = open_count v (open_count v n t) t'.
Proof.
  revert n. induction t as [|[c o] t IH]; intros n; simpl; [reflexivity|].
  destruct c; try apply IH; destruct o; apply IH.
Qed.

Lemma __init___fields h lp m ip port r :
  __init__ h lp m ip port = Some r ->
  host_ip_addr r = h /\ listen_port r = lp /\ upnp_bind_multicast r = m
  /\ _interrupted r = false.
Proof.
  unfold __init__. destruct (build_response ip port); [|discriminate].
  intros [= <-]. now repeat split.
Qed.

Lemma sends_only_app (payload : list byte) (t t' : trace) :
  sends_only payload t -> sends_only payload t' ->
  sends_only payload (t ++ t').
Proof.
  intros H H' v p dest o Hin. apply in_app_or in Hin as [Hin|Hin];
    [eapply H|eapply H']; exact Hin.
Qed.

Lemma setup_no_send (r : UPNPResponderThread) (c : call) :
  In c (map snd (setup r)) ->
  match c with
  | SendTo _ _ _ | Select _ _ | RecvFrom _ _ => False
  | _ => True
  end.
Proof.
  unfold setup. simpl. destruct (upnp_bind_multicast r);
    intros H; repeat (destruct H as [<-|H]; [exact I|]); destruct H.
Qed.

Lemma thread_step_sends_only (e : env) (s : state) :
  sends_only (upnp_response (self s)) (log s) ->
  sends_only (upnp_response (self s)) (log (thread_step e s)).
Proof.
  intros H. step_cases; try exact H; apply sends_only_app; try exact H;
    intros v p dest o Hin.
  1,2: match goal with
       | E : perform ?f ?c = (?t, _) |- _ =>
           assert (Hc : In (SendTo v p dest, o) (fst (perform f c)))
             by (rewrite E; exact Hin);
           apply perform_calls, setup_no_send in Hc; destruct Hc
       end.
  all: simpl in Hin;
    repeat (destruct Hin as [Hin|Hin];
            [try discriminate Hin; injection Hin as _ <- _ _; reflexivity|]);
    destruct Hin.
Qed.

Lemma step_sends_only (s : state) (ev : event) :
  sends_only (upnp_response (self s)) (log s) ->
  sends_only (upnp_response (self (step s ev))) (log (step s ev)).
Proof.
  intros H. rewrite step_upnp_response.
  destruct ev as [e| |]; simpl.
  - now apply thread_step_sends_only.
  - sup_cases; exact H.
  - sup_cases; exact H.
Qed.

(** ** Decoding never fails with [errors='ignore'] *)

Lemma decode_from_ignore_total (s : list byte) (st : option pending) :
  exists t, decode_from ignore st s = Some t.
Proof.
  revert st. induction s as [|b s IH]; intros st.
  - destruct st; simpl; eexists; reflexivity.
  - assert (F : exists t,
               match classify (Byte.to_N b) with
               | Ascii c => option_map (cons c) (decode_from ignore None s)
               | Lead p => decode_from ignore (Some p) s
               | InvalidStart => on_error ignore (decode_from ignore None s)
               end = Some t).
    { destruct (classify (Byte.to_N b)) as [c|p|]; simpl.
      - destruct (IH None) as [t ->]. eexists; reflexivity.
      - apply IH.
      - apply IH. }
    cbn [decode_from]. destruct st as [p|]; [|exact F].
    destruct ((lo p <=? Byte.to_N b) && (Byte.to_N b <=? hi p)); [|exact F].
    destruct (need p).
    + destruct (IH None) as [t ->]. eexists; reflexivity.
    + apply IH.
Qed.

Lemma decode_ignore_total (data : list byte) :
  decode_utf8 ignore data = Some (decode_utf8_ignore data).
Proof.
  unfold decode_utf8_ignore, decode_utf8.
  destruct (decode_from_ignore_total data None) as [t ->]. reflexivity.
Qed.

(** Cutting the input short only cuts the text short: the text decoded
    from a prefix of the bytes is a prefix of the text decoded from all of
    them. *)
Lemma decode_from_ignore_app (a b : list byte) (st : option pending) :
  exists t,
    decode_from ignore st (a ++ b)
    = option_map (fun x => x ++ t) (decode_from ignore st a).
Proof.
  revert st. induction a as [|x a IH]; intros st.
  - destruct (decode_from_ignore_total b st) as [t Ht].
    exists t. rewrite app_nil_l, Ht. destruct st; reflexivity.
  - assert (F : exists t,
               match classify (Byte.to_N x) with
               | Ascii c =>
                   option_map (cons c) (decode_from ignore None (a ++ b))
               | Lead p => decode_from ignore (Some p) (a ++ b)
               | InvalidStart =>
                   on_error ignore (decode_from ignore None (a ++ b))
               end
               = option_map (fun y => y ++ t)
                   match classify (Byte.to_N x) with
                   | Ascii c => option_map (cons c) (decode_from ignore None a)
                   | Lead p => decode_from ignore (Some p) a
                   | InvalidStart =>
                       on_error ignore (decode_from ignore None a)
                   end).
    { destruct (classify (Byte.to_N x)) as [c|p|]; cbn [on_error].
      - destruct (IH None) as [t ->]. exists t.
        now destruct (decode_from ignore None a).
      - apply IH.
      - apply IH. }
    rewrite <- app_comm_cons. cbn [decode_from].
    destruct st as [p|]; [|exact F].
    destruct ((lo p <=? Byte.to_N x) && (Byte.to_N x <=? hi p)); [|exact F].
    destruct (need p).
    + destruct (IH None) as [t ->]. exists t.
      now destruct (decode_from ignore None a).
    + apply IH.
Qed.

Lemma decode_ignore_prefix (a b : list byte) :
  exists t, decode_utf8_ignore (a ++ b) = decode_utf8_ignore a ++ t.
Proof.
  destruct (decode_from_ignore_app a b None) as [t Ht]. exists t.
  unfold decode_utf8_ignore, decode_utf8. rewrite Ht.
  destruct (decode_from_ignore_total a None) as [u ->]. reflexivity.
Qed.

(** ** Handling a datagram *)

(** The body of lines 198-204 on the bytes that were received: one reply,
    the precomputed one, to the sender when their text contains "M-SEARCH"
    and both calls that send it return; none otherwise. *)
Lemma handle_replies (s : state) (data : list byte) (addr : address) (e : env) :
  at_pc s = at_handle data addr ->
  sent (log (thread_step e s))
  = sent (log s)
    ++ (if str_contains (decode_utf8_ignore data) M_SEARCH
        then match reply_fault e with
             | None => [(upnp_response (self s), addr)]
             | Some _ => []
             end
        else [])
  /\ at_pc (thread_step e s)
     = (if str_contains (decode_utf8_ignore data) M_SEARCH
        then match reply_fault e with
             | None => at_loop_top
             | Some _ => raised
             end
        else at_loop_top).
Proof.
  intros Hpc. unfold thread_step. rewrite Hpc. unfold handle.
  destruct (str_contains (decode_utf8_ignore data) M_SEARCH);
    [destruct (reply_fault e) as [[]|]|];
    cbn [goto log at_pc]; rewrite sent_app; split; reflexivity.
Qed.

(** C1, as the code has it.  Of a datagram that arrives, the thread is
    handed what [recvfrom(1024)] returns: its first 1024 bytes at most,
    with the address of its sender.  When the text decoded from those bytes
    contains "M-SEARCH", exactly one datagram is sent, the precomputed
    reply, to that address, provided the two calls that send it
    ([socket.socket] and [sendto]) return; the loop then goes on.  When one
    of them raises, nothing is sent and the exception leaves [run].  When
    the text decoded from those bytes does not contain "M-SEARCH", nothing
    is sent and the loop goes on, whatever the datagram holds further on. *)
Theorem m_search_gets_one_reply
        (s : state) (payload : list byte) (src : address) (e e' : env) :
  at_pc s = at_select ->
  polled e = datagram payload src ->
  at_pc (thread_step e s) = at_handle (firstn 1024 payload) src
  /\ sent (log (thread_step e' (thread_step e s)))
     = sent (log s)
       ++ (if str_contains (decode_utf8_ignore (firstn 1024 payload)) M_SEARCH
           then match reply_fault e' with
                | None => [(upnp_response (self s), src)]
                | Some _ => []
                end
           else [])
  /\ at_pc (thread_step e' (thread_step e s))
     = (if str_contains (decode_utf8_ignore (firstn 1024 payload)) M_SEARCH
        then match reply_fault e' with
             | None => at_loop_top
             | Some _ => raised
             end
        else at_loop_top).
Proof.
  intros Hpc He.
  assert (H1 : thread_step e s
               = goto (at_handle (firstn 1024 payload) src)
                   [(Select ssdp_socket 2, returns);
                    (RecvFrom ssdp_socket 1024, returns)] s)
    by (unfold thread_step; now rewrite Hpc, He).
  destruct (handle_replies (thread_step e s) (firstn 1024 payload) src e')
    as [Hsent Hnext]; [now rewrite H1|].
  rewrite Hsent, Hnext, !H1. cbn [goto at_pc log self].
  rewrite sent_app. cbn [sent]. rewrite app_nil_r.
  repeat split; reflexivity.
Qed.

(** The scenarios of the specification: a query from 192.168.1.50:5353 is
    answered once, a NOTIFY is not answered. *)
Lemma m_search_gets_one_reply_witness :
  sent (log (thread_step quiet
               (thread_step (receives (bytes "M-SEARCH * HTTP/1.1") client)
                  (exec (started hub) [thread quiet; thread quiet]))))
  = [(upnp_response hub, client)]
  /\ sent (log (thread_step quiet
                  (thread_step (receives (bytes "NOTIFY * HTTP/1.1") client)
                     (exec (started hub) [thread quiet; thread quiet]))))
     = [].
Proof.
  split.
  - refine (eq_trans
              (proj1 (proj2 (m_search_gets_one_reply
                        (exec (started hub) [thread quiet; thread quiet])
                        (bytes "M-SEARCH * HTTP/1.1") client
                        (receives (bytes "M-SEARCH * HTTP/1.1") client)
                        quiet _ _))) _);
      vm_compute; reflexivity.
  - refine (eq_trans
              (proj1 (proj2 (m_search_gets_one_reply
                        (exec (started hub) [thread quiet; thread quiet])
                        (bytes "NOTIFY * HTTP/1.1") client
                        (receives (bytes "NOTIFY * HTTP/1.1") client)
                        quiet _ _))) _);
      vm_compute; reflexivity.
Defined.

(** C1 as stated fails, in two ways.  When [sendto] raises, a datagram
    whose text contains "M-SEARCH" has been received and no reply is sent:
    the exception leaves [run].  And a datagram of 1024 letters followed by
    "M-SEARCH" has a decoded text that contains "M-SEARCH", every call
    returns, and no reply is sent: the marker lies beyond the bytes that
    [recvfrom(1024)] returned. *)
Lemma m_search_unanswered :
  (at_pc (hub_received (bytes "M-SEARCH * HTTP/1.1"))
   = at_handle (bytes "M-SEARCH * HTTP/1.1") client
   /\ str_contains (decode_utf8_ignore (bytes "M-SEARCH * HTTP/1.1")) M_SEARCH
      = true
   /\ sent (log (thread_step send_fails
                   (hub_received (bytes "M-SEARCH * HTTP/1.1"))))
      = []
   /\ at_pc (thread_step send_fails
               (hub_received (bytes "M-SEARCH * HTTP/1.1")))
      = raised)
  /\ (str_contains (decode_utf8_ignore late_marker) M_SEARCH = true
      /\ at_pc (hub_received late_marker)
         = at_handle (firstn 1024 late_marker) client
      /\ sent (log (thread_step quiet (hub_received late_marker))) = []
      /\ at_pc (thread_step quiet (hub_received late_marker)) = at_loop_top).
Proof. vm_compute. repeat split; reflexivity. Qed.

(** C3, as the code has it.  A payload that is not valid UTF-8 does not make
    decoding fail: the bytes that cannot be decoded are dropped.  When the
    text that remains does not contain "M-SEARCH", no reply is sent, no call
    is made at all, and the loop goes on. *)
Theorem undecodable_without_marker_ignored
        (s : state) (data : list byte) (addr : address) (e : env) :
  at_pc s = at_handle data addr ->
  decode_utf8 strict data = None ->
  str_contains (decode_utf8_ignore data) M_SEARCH = false ->
  decode_utf8 ignore data = Some (decode_utf8_ignore data)
  /\ log (thread_step e s) = log s
  /\ sent (log (thread_step e s)) = sent (log s)
  /\ at_pc (thread_step e s) = at_loop_top.
Proof.
  intros Hpc _ Hm. split; [apply decode_ignore_total|].
  unfold thread_step. rewrite Hpc. unfold handle. rewrite Hm.
  cbn [goto log at_pc]. rewrite app_nil_r. now repeat split.
Qed.

Lemma undecodable_without_marker_ignored_witness :
  decode_utf8 strict [xff; xfe; x4d; x2d] = None
  /\ log (thread_step quiet (hub_received [xff; xfe; x4d; x2d]))
     = log (hub_received [xff; xfe; x4d; x2d])
  /\ at_pc (thread_step quiet (hub_received [xff; xfe; x4d; x2d]))
     = at_loop_top.
Proof.
  split; [reflexivity|].
  destruct (undecodable_without_marker_ignored
              (hub_received [xff; xfe; x4d; x2d])
              [xff; xfe; x4d; x2d] client quiet)
    as (_ & Hlog & _ & Hpc);
    [vm_compute; reflexivity | reflexivity | vm_compute; reflexivity |].
  split; [exact Hlog | exact Hpc].
Defined.

(** C3 as stated fails: the payload "M-SEARCH" followed by the byte FF is
    not valid UTF-8, and it is answered. *)
Lemma undecodable_datagram_answered :
  decode_utf8 strict (bytes "M-SEARCH" ++ [xff]) = None
  /\ at_pc (hub_received (bytes "M-SEARCH" ++ [xff]))
     = at_handle (bytes "M-SEARCH" ++ [xff]) client
  /\ sent (log (hub_received (bytes "M-SEARCH" ++ [xff]))) = []
  /\ sent (log (thread_step quiet (hub_received (bytes "M-SEARCH" ++ [xff]))))
     = [(upnp_response hub, client)].
Proof. vm_compute. repeat split; reflexivity. Qed.

(** C10.  [recvfrom(1024)] hands over at most the first 1024 bytes of a
    datagram, and only their decoded form is searched.  That form is the
    beginning of the text of the whole datagram; when "M-SEARCH" does not
    occur in it, no reply is sent, whatever follows in the datagram. *)
Theorem marker_beyond_1024_unanswered
        (s : state) (payload : list byte) (src : address) (e e' : env) :
  at_pc s = at_select ->
  polled e = datagram payload src ->
  str_contains (decode_utf8_ignore (firstn 1024 payload)) M_SEARCH = false ->
  at_pc (thread_step e s) = at_handle (firstn 1024 payload) src
  /\ (List.length (firstn 1024 payload) <= 1024)%nat
  /\ (exists rest,
        decode_utf8_ignore payload
        = decode_utf8_ignore (firstn 1024 payload) ++ rest)
  /\ log (thread_step e s)
     = log s ++ [(Select ssdp_socket 2, returns);
                 (RecvFrom ssdp_socket 1024, returns)]
  /\ sent (log (thread_step e' (thread_step e s))) = sent (log s)
  /\ at_pc (thread_step e' (thread_step e s)) = at_loop_top.
Proof.
  intros Hpc He Hm.
  assert (H1 : thread_step e s
               = goto (at_handle (firstn 1024 payload) src)
                   [(Select ssdp_socket 2, returns);
                    (RecvFrom ssdp_socket 1024, returns)] s)
    by (unfold thread_step; now rewrite Hpc, He).
  assert (H2 : thread_step e' (thread_step e s)
               = goto at_loop_top [] (thread_step e s)).
  { rewrite H1. unfold thread_step. cbn [goto at_pc].
    unfold handle. rewrite Hm. reflexivity. }
  rewrite H2, H1. cbn [goto at_pc log].
  rewrite app_nil_r, sent_app. cbn [sent]. rewrite app_nil_r.
  split; [reflexivity|]. split; [apply firstn_le_length|].
  split; [|repeat split; reflexivity].
  destruct (decode_ignore_prefix (firstn 1024 payload) (skipn 1024 payload))
    as [rest Hrest].
  exists rest. now rewrite firstn_skipn in Hrest.
Qed.

Lemma marker_beyond_1024_unanswered_witness :
  str_contains (decode_utf8_ignore late_marker) M_SEARCH = true
  /\ sent (log (thread_step quiet
                  (thread_step (receives late_marker client)
                     (exec (started hub) [thread quiet; thread quiet]))))
     = [].
Proof.
  split; [vm_compute; reflexivity|].
  refine (eq_trans
            (proj1 (proj2 (proj2 (proj2 (proj2
               (marker_beyond_1024_unanswered
                  (exec (started hub) [thread quiet; thread quiet])
                  late_marker client (receives late_marker client) quiet
                  _ _ _)))))) _);
    vm_compute; reflexivity.
Defined.

(** ** Errors *)

(** C6.  A socket error raised by [select] or [recvfrom] while the flag is
    clear is logged, the datagram-handling code is skipped, and the thread
    is back at the head of the loop and then waits again: it is neither
    finished nor has it sent anything. *)
Theorem receive_error_is_logged_and_survived
        (s : state) (e e1 e2 : env) :
  at_pc s = at_select ->
  _interrupted (self s) = false ->
  polled e = select_raises \/ polled e = recvfrom_raises ->
  at_pc (thread_step e s) = at_except
  /\ log (thread_step e1 (thread_step e s))
     = log (thread_step e s)
       ++ [(LogError "UPNP Responder socket exception occurred: %s", returns)]
  /\ sent (log (thread_step e1 (thread_step e s))) = sent (log s)
  /\ at_pc (thread_step e1 (thread_step e s)) = at_loop_top
  /\ at_pc (thread_step e2 (thread_step e1 (thread_step e s))) = at_select.
Proof.
  intros Hpc Hflag He.
  assert (H1 : exists t,
             thread_step e s = goto at_except t s /\ sent t = []).
  { unfold thread_step. rewrite Hpc.
    destruct He as [-> | ->]; eexists; split; reflexivity. }
  destruct H1 as (t & H1 & Ht).
  assert (H2 : thread_step e1 (thread_step e s)
               = goto at_loop_top
                   [(LogError "UPNP Responder socket exception occurred: %s",
                     returns)] (thread_step e s)).
  { rewrite H1. unfold thread_step. cbn [goto at_pc self].
    rewrite Hflag. reflexivity. }
  assert (H3 : thread_step e2 (thread_step e1 (thread_step e s))
               = goto at_select [] (thread_step e1 (thread_step e s))).
  { rewrite H2, H1. unfold thread_step. cbn [goto at_pc self].
    rewrite Hflag. reflexivity. }
  rewrite H3, H2, H1. cbn [goto at_pc log].
  rewrite !sent_app, Ht. cbn [sent]. rewrite !app_nil_r.
  repeat split; reflexivity.
Qed.

Lemma receive_error_is_logged_and_survived_witness :
  at_pc (thread_step quiet
           (thread_step quiet
              (thread_step wait_fails
                 (exec (started hub) [thread quiet; thread quiet]))))
  = at_select
  /\ sent (log (thread_step quiet
                  (thread_step wait_fails
                     (exec (started hub) [thread quiet; thread quiet]))))
     = [].
Proof.
  destruct (receive_error_is_logged_and_survived
              (exec (started hub) [thread quiet; thread quiet])
              wait_fails quiet quiet)
    as (_ & _ & Hsent & _ & Hpc);
    [vm_compute; reflexivity | vm_compute; reflexivity
     | left; reflexivity |].
  split; [exact Hpc|].
  rewrite Hsent. vm_compute. reflexivity.
Defined.

(** The supervisor sees of the thread only whether it has finished: after
    the same calls it is in the same state next to a thread that an
    exception ended as next to one that returned. *)
Lemma supervisor_sees_only_the_end (evs : list event) (s s' : state) :
  finished (at_pc s) = true ->
  finished (at_pc s') = true ->
  sup s = sup s' ->
  sup (exec s evs) = sup (exec s' evs).
Proof.
  revert s s'. induction evs as [|ev evs IH]; intros s s' H H' Hs;
    [exact Hs|].
  cbn [exec fold_left]. apply IH.
  - destruct (step_finished s ev H) as [-> _]. exact H.
  - destruct (step_finished s' ev H') as [-> _]. exact H'.
  - destruct ev as [e| |]; cbn [step].
    + now rewrite !thread_step_finished.
    + destruct (sup s) eqn:E, (sup s') eqn:E'; try discriminate;
        cbn [sup]; congruence.
    + destruct (sup s) eqn:E, (sup s') eqn:E'; try discriminate;
        rewrite ?H, ?H'; cbn [sup]; congruence.
Qed.

(** [stop] on a thread that has finished returns. *)
Lemma stop_after_the_end (s : state) :
  finished (at_pc s) = true ->
  sup (exec s [stop_called; join_returns]) = stop_returned.
Proof.
  intros H. cbn [exec fold_left step].
  destruct (sup s) eqn:Hs; cbn [sup at_pc]; rewrite ?Hs, H; reflexivity.
Qed.

(** C7, as the code has it.  When a call of the set-up raises (creating the
    socket, one of the socket options, joining the group, binding), the
    exception leaves [run] at that call: the calls before it returned,
    nothing is called after it, and the thread never polls, receives or
    sends.  The exception ends the thread in which [run] is executed and
    goes no further: the supervisor is where it was, whatever it calls next
    it is in the state it would be in next to a thread that returned, and a
    [stop] then returns. *)
Theorem failed_setup_never_listens
        (r : UPNPResponderThread) (e : env) (k : setup_call)
        (evs : list event) :
  setup_fault e = Some k ->
  at_pc (thread_step e (started r)) = raised
  /\ (exists before c after,
        setup r = before ++ (k, c) :: after
        /\ log (thread_step e (started r))
           = map (fun kc => (snd kc, returns)) before ++ [(c, raises)])
  /\ at_pc (exec (thread_step e (started r)) evs) = raised
  /\ log (exec (thread_step e (started r)) evs)
     = log (thread_step e (started r))
  /\ never_listened (log (exec (thread_step e (started r)) evs))
  /\ sup (thread_step e (started r)) = idle
  /\ (forall s' : state,
        at_pc s' = returned -> sup s' = idle ->
        sup (exec (thread_step e (started r)) evs) = sup (exec s' evs))
  /\ sup (exec (thread_step e (started r)) (evs ++ [stop_called; join_returns]))
     = stop_returned.
Proof.
  intros He.
  assert (Hpc : at_pc (thread_step e (started r)) = raised).
  { unfold thread_step, started. cbn [at_pc self]. rewrite He.
    destruct k; reflexivity. }
  assert (Hsup : sup (thread_step e (started r)) = idle)
    by (now destruct (thread_step_self e (started r)) as [_ ->]).
  destruct (exec_finished evs (thread_step e (started r))) as [Hp Hl];
    [now rewrite Hpc|].
  rewrite Hp, Hl. split; [exact Hpc|].
  split; [|split; [exact Hpc|split; [reflexivity|split; [|split; [exact Hsup|split]]]]].
  - unfold thread_step, started, setup. cbn [at_pc self]. rewrite He.
    destruct k; cbn [perform setup_call_eqb goto log app].
    + exists []. do 2 eexists. split; reflexivity.
    + eexists [_]. do 2 eexists. split; reflexivity.
    + eexists [_; _]. do 2 eexists. split; reflexivity.
    + eexists [_; _; _]. do 2 eexists. split; reflexivity.
    + eexists [_; _; _; _]. do 2 eexists. split; reflexivity.
    + eexists [_; _; _; _; _]. do 2 eexists. split; reflexivity.
  - intros c o Hin. apply (setup_no_send r).
    apply (perform_calls (setup_fault e) _ c o).
    unfold thread_step, started in Hin. cbn [at_pc self] in Hin.
    destruct (perform (setup_fault e) (setup r)) as [t ok].
    cbn [goto log app fst] in *. exact Hin.
  - intros s' Hs' Hi. apply supervisor_sees_only_the_end.
    + now rewrite Hpc.
    + now rewrite Hs'.
    + now rewrite Hsup, Hi.
  - rewrite exec_app. apply stop_after_the_end. now rewrite Hp, Hpc.
Qed.

Lemma failed_setup_never_listens_witness :
  at_pc (exec (thread_step (setup_fails on_bind) (started hub))
              [thread (receives (bytes "M-SEARCH") client); thread quiet])
  = raised
  /\ sent (log (exec (thread_step (setup_fails on_bind) (started hub))
                     [thread (receives (bytes "M-SEARCH") client);
                      thread quiet]))
     = []
  /\ sup (exec (thread_step (setup_fails on_bind) (started hub))
               [thread (receives (bytes "M-SEARCH") client); thread quiet])
     = idle.
Proof.
  destruct (failed_setup_never_listens hub (setup_fails on_bind) on_bind
              [thread (receives (bytes "M-SEARCH") client); thread quiet]
              eq_refl)
    as (_ & _ & Hpc & Hlog & _ & _ & Hsup & _).
  split; [exact Hpc|]. split; [rewrite Hlog; vm_compute; reflexivity|].
  rewrite (Hsup {| self := hub; at_pc := returned; log := []; sup := idle |}
             eq_refl eq_refl).
  reflexivity.
Defined.

(** C7 as stated fails: the failure does not reach the supervisor.  [bind]
    raises in the thread of a responder that was started; the thread has
    ended, the supervisor is where it was when [start] returned, and its
    [stop] returns as it does after a run that went well, where the thread
    saw the flag and returned. *)
Lemma setup_failure_stays_in_thread :
  at_pc (exec (started hub) [thread (setup_fails on_bind)]) = raised
  /\ sup (exec (started hub) [thread (setup_fails on_bind)])
     = sup (started hub)
  /\ sup (exec (started hub)
               [thread (setup_fails on_bind); stop_called; join_returns])
     = stop_returned
  /\ at_pc (exec (started hub)
                 [thread quiet; stop_called; thread quiet; join_returns])
     = returned
  /\ sup (exec (started hub)
               [thread quiet; stop_called; thread quiet; join_returns])
     = stop_returned.
Proof. vm_compute. repeat split; reflexivity. Qed.

(** ** The reply socket *)

(** C8, as the code has it.  A reply whose calls all return opens one
    socket, sends once on it and closes it before the loop goes on.  When
    [sendto] raises, the exception leaves [run] and the socket just opened
    is not closed by the thread. *)
Theorem reply_socket_closed_unless_send_raises
        (s : state) (data : list byte) (addr : address) (e : env) (n : nat) :
  at_pc s = at_handle data addr ->
  str_contains (decode_utf8_ignore data) M_SEARCH = true ->
  match reply_fault e with
  | None =>
      log (thread_step e s)
      = log s ++ [(Socket resp_socket, returns);
                  (SendTo resp_socket (upnp_response (self s)) addr, returns);
                  (Close resp_socket, returns)]
      /\ at_pc (thread_step e s) = at_loop_top
      /\ open_count resp_socket n (log (thread_step e s))
         = open_count resp_socket n (log s)
  | Some on_sendto =>
      log (thread_step e s)
      = log s ++ [(Socket resp_socket, returns);
                  (SendTo resp_socket (upnp_response (self s)) addr, raises)]
      /\ at_pc (thread_step e s) = raised
      /\ open_count resp_socket n (log (thread_step e s))
         = S (open_count resp_socket n (log s))
  | Some on_reply_socket =>
      log (thread_step e s) = log s ++ [(Socket resp_socket, raises)]
      /\ at_pc (thread_step e s) = raised
      /\ open_count resp_socket n (log (thread_step e s))
         = open_count resp_socket n (log s)
  end.
Proof.
  intros Hpc Hm. unfold thread_step. rewrite Hpc. unfold handle.
  rewrite Hm.
  destruct (reply_fault e) as [[]|]; cbn [goto log at_pc];
    rewrite open_count_app; repeat split; reflexivity.
Qed.

Lemma reply_socket_closed_unless_send_raises_witness :
  open_count resp_socket 0
    (log (thread_step quiet (hub_received (bytes "M-SEARCH * HTTP/1.1"))))
  = 0%nat
  /\ at_pc (thread_step quiet (hub_received (bytes "M-SEARCH * HTTP/1.1")))
     = at_loop_top.
Proof.
  destruct (reply_socket_closed_unless_send_raises
              (hub_received (bytes "M-SEARCH * HTTP/1.1"))
              (bytes "M-SEARCH * HTTP/1.1") client quiet 0)
    as (_ & Hpc & Hn); [vm_compute; reflexivity | vm_compute; reflexivity |].
  split; [|exact Hpc]. rewrite Hn. vm_compute. reflexivity.
Defined.

(** C8 as stated fails: when [sendto] raises, the reply socket stays
    open. *)
Lemma reply_socket_leaks_when_send_raises :
  open_count resp_socket 0 (log (hub_received (bytes "M-SEARCH * HTTP/1.1")))
  = 0%nat
  /\ open_count resp_socket 0
       (log (thread_step send_fails
               (hub_received (bytes "M-SEARCH * HTTP/1.1"))))
     = 1%nat
  /\ at_pc (thread_step send_fails
              (hub_received (bytes "M-SEARCH * HTTP/1.1")))
     = raised.
Proof. vm_compute. repeat split; reflexivity. Qed.

(** ** The configuration *)

(** C4.  The reply is a function of the advertise address and port alone:
    two responders built from the same two values hold the same bytes.
    The bytes are computed by the constructor and by nothing else: no step
    of a run changes the attribute, and every [sendto] of a run carries
    exactly these bytes. *)
Theorem upnp_response_fixed
        (h1 h2 : pystr) (lp1 lp2 : Z) (m1 m2 : bool)
        (ip : pystr) (port : Z) (r1 r2 : UPNPResponderThread)
        (evs : list event) :
  __init__ h1 lp1 m1 ip port = Some r1 ->
  __init__ h2 lp2 m2 ip port = Some r2 ->
  upnp_response r1 = upnp_response r2
  /\ upnp_response (self (exec (started r1) evs)) = upnp_response r1
  /\ sends_only (upnp_response r1) (log (exec (started r1) evs)).
Proof.
  intros H1 H2. split.
  - apply __init___response in H1, H2. congruence.
  - pose (P := fun s : state =>
                 upnp_response (self s) = upnp_response r1
                 /\ sends_only (upnp_response r1) (log s)).
    apply (exec_invariant P).
    + intros s ev [Hr Hs]. unfold P. rewrite step_upnp_response.
      split; [exact Hr|].
      rewrite <- Hr, <- (step_upnp_response s ev).
      apply step_sends_only. now rewrite Hr.
    + split; [reflexivity|]. intros v p dest o [].
Qed.

Lemma upnp_response_fixed_witness :
  exists r1 r2,
    __init__ (str "192.168.1.2") 1900 true (str "10.0.0.5") 8300 = Some r1
    /\ __init__ (str "172.16.0.9") 1901 false (str "10.0.0.5") 8300 = Some r2
    /\ upnp_response r1 = upnp_response r2
    /\ sends_only (upnp_response r1)
         (log (exec (started r1)
                 [thread quiet; thread quiet;
                  thread (receives (bytes "M-SEARCH") client);
                  thread quiet])).
Proof.
  destruct (__init__ (str "192.168.1.2") 1900 true (str "10.0.0.5") 8300)
    as [r1|] eqn:E1; [|vm_compute in E1; discriminate E1].
  destruct (__init__ (str "172.16.0.9") 1901 false (str "10.0.0.5") 8300)
    as [r2|] eqn:E2; [|vm_compute in E2; discriminate E2].
  exists r1, r2. split; [reflexivity|]. split; [reflexivity|].
  destruct (upnp_response_fixed _ _ _ _ _ _ _ _ r1 r2
              [thread quiet; thread quiet;
               thread (receives (bytes "M-SEARCH") client); thread quiet]
              E1 E2) as (Heq & _ & Hs).
  split; [exact Heq | exact Hs].
Defined.

Lemma step_relabel (p : Z) (s : state) (ev : event) :
  step (relabel p s) ev = relabel p (step s ev).
Proof.
  destruct ev as [e| |]; simpl.
  - unfold thread_step, handle, goto, setup, relabel, with_listen_port.
    cbn [self at_pc log sup host_ip_addr upnp_bind_multicast upnp_response
         _interrupted].
    step_cases; congruence.
  - unfold relabel. cbn [sup]. sup_cases; first [reflexivity|congruence].
  - unfold relabel. cbn [sup at_pc]. sup_cases;
      first [reflexivity|congruence].
Qed.

Lemma exec_relabel (p : Z) (evs : list event) (s : state) :
  exec (relabel p s) evs = relabel p (exec s evs).
Proof.
  revert s. induction evs as [|ev evs IH]; intros s; simpl.
  - reflexivity.
  - rewrite step_relabel. apply IH.
Qed.

Lemma __init___listen_port h lp lp' m ip port r r' :
  __init__ h lp m ip port = Some r ->
  __init__ h lp' m ip port = Some r' ->
  started r' = relabel lp' (started r).
Proof.
  unfold __init__. destruct (build_response ip port); [|discriminate].
  intros [= <-] [= <-]. reflexivity.
Qed.

Lemma setup_binds (r : UPNPResponderThread) (v : sock) (host : pystr)
      (port : Z) :
  In (Bind v host port) (map snd (setup r)) ->
  v = ssdp_socket /\ port = 1900%Z
  /\ host = if upnp_bind_multicast r then str "" else host_ip_addr r.
Proof.
  unfold setup. simpl. intros H.
  repeat (destruct H as [H|H];
          [first [discriminate H
                 |destruct (upnp_bind_multicast r);
                  injection H as <- <- <-; now repeat split]|]).
  destruct H.
Qed.

Lemma thread_step_binds (e : env) (s : state) (v : sock) (host : pystr)
      (port : Z) (o : outcome) :
  In (Bind v host port, o) (log (thread_step e s)) ->
  In (Bind v host port, o) (log s)
  \/ (v = ssdp_socket /\ port = 1900%Z
      /\ host = if upnp_bind_multicast (self s) then str ""
                else host_ip_addr (self s)).
Proof.
  step_cases; try (intros H; left; exact H);
    intros H; apply in_app_or in H as [H|H]; try (left; exact H).
  1,2: match goal with
       | E : perform ?f ?c = (?t, _) |- _ =>
           assert (Hc : In (Bind v host port, o) (fst (perform f c)))
             by (rewrite E; exact H);
           right; exact (setup_binds _ _ _ _ (perform_calls _ _ _ _ Hc))
       end.
  all: simpl in H;
    repeat (destruct H as [H|H]; [discriminate H|]); destruct H.
Qed.

(** C9.  Whatever [listen_port] was given to the constructor, the run is
    the same: the attribute is stored and never read.  The listening socket
    is bound to port 1900, on the wildcard address when
    [upnp_bind_multicast] is set and on [host_ip_addr] otherwise, and a
    set-up whose calls return does make that call. *)
Theorem binds_port_1900_whatever_listen_port
        (h : pystr) (lp lp' : Z) (m : bool) (ip : pystr) (port : Z)
        (r r' : UPNPResponderThread) (evs : list event) (e : env) :
  __init__ h lp m ip port = Some r ->
  __init__ h lp' m ip port = Some r' ->
  log (exec (started r') evs) = log (exec (started r) evs)
  /\ at_pc (exec (started r') evs) = at_pc (exec (started r) evs)
  /\ binds_only (if m then str "" else h) 1900 (log (exec (started r) evs))
  /\ (setup_fault e = None ->
      In (Bind ssdp_socket (if m then str "" else h) 1900, returns)
         (log (thread_step e (started r)))).
Proof.
  intros H H'.
  rewrite (__init___listen_port _ _ _ _ _ _ _ _ H H'), exec_relabel.
  split; [reflexivity|]. split; [reflexivity|].
  destruct (__init___fields _ _ _ _ _ _ H) as (Hh & _ & Hm & _).
  split.
  - pose (P := fun s : state =>
                 host_ip_addr (self s) = h
                 /\ upnp_bind_multicast (self s) = m
                 /\ binds_only (if m then str "" else h) 1900 (log s)).
    assert (HP : P (exec (started r) evs)).
    { apply (exec_invariant P).
      - intros s ev (Hh' & Hm' & Hb). unfold P.
        destruct ev as [e0| |]; simpl.
        + rewrite (proj1 (thread_step_self e0 s)).
          split; [exact Hh'|]. split; [exact Hm'|].
          intros v host' port' o Hin.
          apply thread_step_binds in Hin as [Hin|(-> & -> & ->)].
          * eapply Hb, Hin.
          * rewrite Hh', Hm'. now repeat split.
        + sup_cases; (split; [exact Hh'|split; [exact Hm'|exact Hb]]).
        + sup_cases; (split; [exact Hh'|split; [exact Hm'|exact Hb]]).
      - split; [exact Hh|]. split; [exact Hm|]. intros v host' port' o []. }
    apply HP.
  - intros He. unfold thread_step, started, setup. cbn [at_pc self].
    rewrite He, Hh, Hm. cbn [perform goto log app].
    destruct m; simpl; tauto.
Qed.

Lemma binds_port_1900_whatever_listen_port_witness :
  exists r r',
    __init__ (str "192.168.1.2") 1900 false (str "10.0.0.5") 8300 = Some r
    /\ __init__ (str "192.168.1.2") 5000 false (str "10.0.0.5") 8300 = Some r'
    /\ listen_port r' = 5000%Z
    /\ log (exec (started r') [thread quiet])
       = log (exec (started r) [thread quiet])
    /\ In (Bind ssdp_socket (str "192.168.1.2") 1900, returns)
          (log (thread_step quiet (started r))).
Proof.
  destruct (__init__ (str "192.168.1.2") 1900 false (str "10.0.0.5") 8300)
    as [r|] eqn:E; [|vm_compute in E; discriminate E].
  destruct (__init__ (str "192.168.1.2") 5000 false (str "10.0.0.5") 8300)
    as [r'|] eqn:E'; [|vm_compute in E'; discriminate E'].
  exists r, r'. split; [reflexivity|]. split; [reflexivity|].
  split; [apply (__init___fields _ _ _ _ _ _ E')|].
  destruct (binds_port_1900_whatever_listen_port
              _ _ _ _ _ _ r r' [thread quiet] quiet E E')
    as (Hlog & _ & _ & Hbind).
  split; [exact Hlog | exact (Hbind eq_refl)].
Defined.

(** ** Stopping *)

Lemma setup_opens_listening_socket (r : UPNPResponderThread) (t : trace) :
  perform None (setup r) = (t, true) ->
  open_count ssdp_socket 0 t = 1%nat.
Proof.
  unfold setup. cbn [perform]. intros [= <-].
  destruct (upnp_bind_multicast r); reflexivity.
Qed.

Lemma perform_all_returned (f : option setup_call) (r : UPNPResponderThread)
      (t : trace) :
  perform f (setup r) = (t, true) -> f = None.
Proof.
  destruct f as [k|]; [|reflexivity].
  unfold setup. destruct k; cbn [perform setup_call_eqb]; discriminate.
Qed.

Lemma thread_step_invariant (e : env) (s : state) :
  run_invariant s -> run_invariant (thread_step e s).
Proof.
  intros [Hsetup Halive Hret Hjoin Hstop].
  assert (Hnot : sup s = stop_returned -> finished (at_pc s) = false -> False)
    by (intros H1 H2; rewrite (Hstop H1) in H2; discriminate).
  unfold thread_step.
  destruct (at_pc s) as [| | | |data addr| |] eqn:Hpc.
  - (* set-up *)
    destruct (perform (setup_fault e) (setup (self s))) as [t ok] eqn:Ep.
    destruct ok; constructor; cbn [goto at_pc log self sup];
      rewrite ?(Hsetup eq_refl); cbn [app];
      try discriminate; try assumption;
      try (intros H; exfalso; now apply Hnot).
    intros _. pose proof (perform_all_returned _ _ _ Ep) as Hf.
    rewrite Hf in Ep. now apply setup_opens_listening_socket in Ep.
  - (* head of the loop *)
    assert (Ha := Halive eq_refl).
    destruct (_interrupted (self s)) eqn:Hflag;
      constructor; cbn [goto at_pc log self sup];
      rewrite ?open_count_app, ?Ha, ?Hflag; cbn [finished];
      try discriminate; try assumption; try reflexivity;
      try (intros H; exfalso; now apply Hnot).
    intros _. split; [reflexivity|]. split; [reflexivity|].
    eexists; reflexivity.
  - (* select and recvfrom *)
    assert (Ha := Halive eq_refl).
    destruct (polled e); constructor; cbn [goto at_pc log self sup];
      rewrite ?open_count_app, ?Ha;
      try discriminate; try assumption; try reflexivity;
      try (intros H; exfalso; now apply Hnot).
  - (* except *)
    assert (Ha := Halive eq_refl).
    destruct (_interrupted (self s)) eqn:Hflag;
      constructor; cbn [goto at_pc log self sup];
      rewrite ?open_count_app, ?Ha, ?Hflag; cbn [finished];
      try discriminate; try assumption; try reflexivity;
      try (intros H; exfalso; now apply Hnot).
    intros _. split; [reflexivity|]. split; [reflexivity|].
    eexists; reflexivity.
  - (* handling a datagram *)
    assert (Ha := Halive eq_refl).
    unfold handle.
    destruct (str_contains (decode_utf8_ignore data) M_SEARCH);
      [destruct (reply_fault e) as [[]|]|];
      constructor; cbn [goto at_pc log self sup];
      rewrite ?open_count_app, ?Ha; cbn [finished];
      try discriminate; try assumption; try reflexivity;
      try (intros H; exfalso; now apply Hnot).
  - constructor; rewrite ?Hpc; assumption.
  - constructor; rewrite ?Hpc; assumption.
Qed.

Lemma step_invariant (s : state) (ev : event) :
  run_invariant s -> run_invariant (step s ev).
Proof.
  intros Hinv. destruct ev as [e| |]; simpl.
  - now apply thread_step_invariant.
  - (* stop is called *)
    assert (Hset : run_invariant
                     {| self := interrupt (self s); at_pc := at_pc s;
                        log := log s; sup := joining |}).
    { destruct Hinv as [Hsetup Halive Hret Hjoin Hstop].
      constructor; cbn [at_pc log self sup interrupt _interrupted];
        try assumption; try discriminate.
      - intros H. destruct (Hret H) as (_ & H0 & H1). now repeat split.
      - reflexivity. }
    destruct (sup s); assumption.
  - (* join returns *)
    destruct (sup s) eqn:Hsup; try assumption.
    destruct (finished (at_pc s)) eqn:Hfin; try assumption.
    destruct Hinv as [Hsetup Halive Hret Hjoin Hstop].
    constructor; cbn [at_pc log self sup]; try assumption.
    + intros _. apply Hjoin. rewrite Hsup. discriminate.
    + intros _. exact Hfin.
Qed.

Lemma started_invariant (r : UPNPResponderThread) : run_invariant (started r).
Proof. constructor; cbn; try discriminate; try reflexivity. now intros []. Qed.

Lemma run_invariant_holds (r : UPNPResponderThread) (evs : list event) :
  run_invariant (exec (started r) evs).
Proof.
  apply (exec_invariant run_invariant).
  - apply step_invariant.
  - apply started_invariant.
Qed.

(** C2, as the code has it.  [stop] sets the flag and then waits in [join],
    which returns only once the thread has finished; on a finished thread
    it returns at once.  [run] returns only after reading the flag as set,
    at the head of the loop or in the [except] branch; it then closes the
    listening socket, and that is the last thing the thread does.  A
    finished thread, however it finished, makes no further call: no
    datagram is received and no reply is sent. *)
Theorem stop_sets_flag_and_joins
        (r : UPNPResponderThread) (evs evs' : list event) (e : env) :
  (* stop: the assignment, then the wait *)
  (sup (exec (started r) evs) <> joining ->
   _interrupted (self (step (exec (started r) evs) stop_called)) = true
   /\ sup (step (exec (started r) evs) stop_called) = joining)
  /\ (finished (at_pc (exec (started r) evs)) = false ->
      step (exec (started r) evs) join_returns = exec (started r) evs)
  /\ (sup (exec (started r) evs) = stop_returned ->
      _interrupted (self (exec (started r) evs)) = true
      /\ finished (at_pc (exec (started r) evs)) = true)
  (* stop on a thread that has already finished *)
  /\ (finished (at_pc (exec (started r) evs)) = true ->
      sup (exec (exec (started r) evs) [stop_called; join_returns])
      = stop_returned)
  (* the flag, once read as set, ends the run *)
  /\ ((at_pc (exec (started r) evs) = at_loop_top
       \/ at_pc (exec (started r) evs) = at_except) ->
      _interrupted (self (exec (started r) evs)) = true ->
      at_pc (thread_step e (exec (started r) evs)) = returned
      /\ log (thread_step e (exec (started r) evs))
         = log (exec (started r) evs) ++ clean_socket_close ssdp_socket)
  (* run returns in no other way, and with the socket closed *)
  /\ (at_pc (exec (started r) evs) = returned ->
      _interrupted (self (exec (started r) evs)) = true
      /\ open_count ssdp_socket 0 (log (exec (started r) evs)) = 0%nat
      /\ exists t,
          log (exec (started r) evs) = t ++ clean_socket_close ssdp_socket)
  (* nothing happens after the end *)
  /\ (finished (at_pc (exec (started r) evs)) = true ->
      at_pc (exec (exec (started r) evs) evs') = at_pc (exec (started r) evs)
      /\ log (exec (exec (started r) evs) evs') = log (exec (started r) evs))
  (* in particular after stop has returned *)
  /\ (sup (exec (started r) evs) = stop_returned ->
      sent (log (exec (exec (started r) evs) evs'))
      = sent (log (exec (started r) evs))).
Proof.
  pose proof (run_invariant_holds r evs) as Hinv.
  set (s := exec (started r) evs) in *.
  destruct Hinv as [Hsetup Halive Hret Hjoin Hstop].
  split; [|split; [|split; [|split; [|split; [|split; [|split]]]]]].
  - intros H. simpl. destruct (sup s); [now split|congruence|now split].
  - intros H. simpl. destruct (sup s); try reflexivity. now rewrite H.
  - intros H. split; [apply Hjoin; rewrite H; discriminate|now apply Hstop].
  - intros H. cbn [exec fold_left step].
    destruct (sup s) eqn:Hsup; cbn [sup at_pc]; rewrite ?Hsup, ?H;
      reflexivity.
  - intros H H0. unfold thread_step.
    destruct H as [-> | ->]; rewrite H0; now split.
  - exact Hret.
  - intros H. now apply exec_finished.
  - intros H. f_equal. now apply exec_finished, Hstop.
Qed.

(** A run that is stopped while idle: the socket is closed when [stop]
    returns. *)
Lemma stop_sets_flag_and_joins_witness :
  sup (exec (started hub)
         [thread quiet; thread quiet; thread quiet; stop_called;
          thread quiet; join_returns])
  = stop_returned
  /\ open_count ssdp_socket 0
       (log (exec (started hub)
               [thread quiet; thread quiet; thread quiet; stop_called;
                thread quiet; join_returns]))
     = 0%nat.
Proof.
  split; [vm_compute; reflexivity|].
  refine (proj1 (proj2
            (proj1 (proj2 (proj2 (proj2 (proj2 (proj2
               (stop_sets_flag_and_joins hub
                  [thread quiet; thread quiet; thread quiet; stop_called;
                   thread quiet; join_returns] [] quiet))))))
               _))).
  vm_compute. reflexivity.
Defined.

(** C2 as stated fails: a [sendto] that raises ends the thread without the
    flag having been read and without closing the listening socket; [stop]
    called afterwards returns, and the socket has not been closed. *)
Lemma stop_returns_with_socket_open :
  at_pc (exec (hub_received (bytes "M-SEARCH * HTTP/1.1"))
              [thread send_fails])
  = raised
  /\ _interrupted (self (exec (hub_received (bytes "M-SEARCH * HTTP/1.1"))
                              [thread send_fails]))
     = false
  /\ sup (exec (hub_received (bytes "M-SEARCH * HTTP/1.1"))
               [thread send_fails; stop_called; join_returns])
     = stop_returned
  /\ open_count ssdp_socket 0
       (log (exec (hub_received (bytes "M-SEARCH * HTTP/1.1"))
                  [thread send_fails; stop_called; join_returns]))
     = 1%nat.
Proof. vm_compute. repeat split; reflexivity. Qed.

(** ** The HTTP views *)

Lemma friendly_name_format (c : Config) :
  format_kw BRIDGE_FRIENDLY_NAME_TEMPLATE [(str "c", VConfig c)]
  = Some (friendly_name_of c).
Proof. reflexivity. Qed.

Lemma xml_template_format (c : Config) (name : pystr) :
  format_kw xml_template [(str "c", VConfig c); (str "friendly_name", VStr name)]
  = Some
      ((str "<?xml version=" ++ dq ++ str "1.0" ++ dq
        ++ str " encoding=" ++ dq ++ str "UTF-8" ++ dq ++ str " ?>
<root xmlns=" ++ dq ++ str "urn:schemas-upnp-org:device-1-0" ++ dq ++ str ">
<specVersion>
<major>1</major>
<minor>0</minor>
</specVersion>
<URLBase>http://")
       ++ advertise_ip c ++ str ":" ++ str_of_int (advertise_port c)
       ++ str "/</URLBase>
<device>
<deviceType>urn:schemas-upnp-org:device:Basic:1</deviceType>
<friendlyName>"
       ++ name
       ++ str "</friendlyName>
<manufacturer>Royal Philips Electronics</manufacturer>
<manufacturerURL>http://www.philips.com</manufacturerURL>
<modelDescription>Philips hue Personal Wireless Lighting</modelDescription>
<modelName>Philips hue bridge 2015</modelName>
<modelNumber>BSB002</modelNumber>
<modelURL>http://www.meethue.com</modelURL>
<serialNumber>1234</serialNumber>
<UDN>uuid:2f402f80-da50-11e1-9b23-001788255acc</UDN>
</device>
</root>
").
Proof. reflexivity. Qed.

(** Which texts [encode] accepts. *)
Lemma encode_utf8_app_defined (a b : pystr) :
  encode_utf8 (a ++ b) <> None
  <-> encode_utf8 a <> None /\ encode_utf8 b <> None.
Proof.
  rewrite encode_utf8_app.
  destruct (encode_utf8 a), (encode_utf8 b); split;
    try (intros [? ?]); try split; congruence.
Qed.

Lemma encode_utf8_ascii_defined (s : pystr) :
  all_ascii s = true -> encode_utf8 s <> None.
Proof. intros H. now rewrite (encode_utf8_ascii s H). Qed.

Lemma encode_utf8_replace_defined (s : pystr) :
  encode_utf8 (replace_lf_crlf s) <> None <-> encode_utf8 s <> None.
Proof.
  induction s as [|c s IH]; [reflexivity|].
  cbn [replace_lf_crlf]. destruct (c =? LF) eqn:E.
  - apply N.eqb_eq in E. subst c.
    change (encode_utf8 (CR :: LF :: replace_lf_crlf s))
      with (encode_utf8 ([CR; LF] ++ replace_lf_crlf s)).
    change (encode_utf8 (LF :: s)) with (encode_utf8 ([LF] ++ s)).
    rewrite !encode_utf8_app_defined, IH.
    split; intros [_ H]; (split; [discriminate | exact H]).
  - change (encode_utf8 (c :: replace_lf_crlf s))
      with (encode_utf8 ([c] ++ replace_lf_crlf s)).
    change (encode_utf8 (c :: s)) with (encode_utf8 ([c] ++ s)).
    now rewrite !encode_utf8_app_defined, IH.
Qed.

(** The document, cut at its two fields.  The view returns it when the
    address can be encoded, and raises otherwise. *)
Lemma DescriptionXmlView_get_text (c : Config) :
  exists head middle tail,
    DescriptionXmlView_get c
    = web_Response
        (head ++ str "<URLBase>" ++ origin c ++ str "/</URLBase>"
         ++ middle ++ str "<friendlyName>" ++ friendly_name_of c
         ++ str "</friendlyName>" ++ tail)
        (str "text/xml")
    /\ (encode_utf8
          (head ++ str "<URLBase>" ++ origin c ++ str "/</URLBase>"
           ++ middle ++ str "<friendlyName>" ++ friendly_name_of c
           ++ str "</friendlyName>" ++ tail) <> None
        <-> encode_utf8 (advertise_ip c) <> None).
Proof.
  unfold DescriptionXmlView_get.
  rewrite friendly_name_format, xml_template_format.
  exists (str "<?xml version=" ++ dq ++ str "1.0" ++ dq
          ++ str " encoding=" ++ dq ++ str "UTF-8" ++ dq ++ str " ?>
<root xmlns=" ++ dq ++ str "urn:schemas-upnp-org:device-1-0" ++ dq ++ str ">
<specVersion>
<major>1</major>
<minor>0</minor>
</specVersion>
").
  exists (str "
<device>
<deviceType>urn:schemas-upnp-org:device:Basic:1</deviceType>
").
  exists (str "
<manufacturer>Royal Philips Electronics</manufacturer>
<manufacturerURL>http://www.philips.com</manufacturerURL>
<modelDescription>Philips hue Personal Wireless Lighting</modelDescription>
<modelName>Philips hue bridge 2015</modelName>
<modelNumber>BSB002</modelNumber>
<modelURL>http://www.meethue.com</modelURL>
<serialNumber>1234</serialNumber>
<UDN>uuid:2f402f80-da50-11e1-9b23-001788255acc</UDN>
</device>
</root>
").
  split.
  - f_equal. unfold origin, friendly_name_of.
    rewrite <- !app_assoc. reflexivity.
  - unfold origin, friendly_name_of.
    assert (Hport : encode_utf8 (str_of_int (advertise_port c)) <> None)
      by (apply encode_utf8_ascii_defined, plain_ascii, str_of_int_plain).
    rewrite !encode_utf8_app_defined.
    split; [tauto|]. intros Hip.
    repeat split;
      solve [ exact Hip | exact Hport
            | apply encode_utf8_ascii_defined; vm_compute; reflexivity ].
Qed.

(** The LOCATION line of the reply, as bytes. *)
Lemma expected_reply_location (ip port : list byte) :
  exists before after,
    expected_reply ip port
    = before ++ crlf
      ++ bytes "LOCATION: "
      ++ (bytes "http://" ++ ip ++ bytes ":" ++ port ++ bytes "/description.xml")
      ++ crlf ++ after.
Proof.
  exists (bytes "HTTP/1.1 200 OK" ++ crlf
          ++ bytes "CACHE-CONTROL: max-age=60" ++ crlf ++ bytes "EXT:").
  eexists. unfold expected_reply. rewrite <- !app_assoc. reflexivity.
Qed.

(** X1.  The two ways a client learns where the bridge is agree.  The
    description document gives [URLBase] as "http://address:port/", and
    the LOCATION line of the discovery reply built from the same address
    and port is the same prefix followed by the path at which the document
    is served. *)
Theorem description_and_reply_agree
        (c : Config) (h : pystr) (lp : Z) (m : bool)
        (r : UPNPResponderThread) :
  __init__ h lp m (advertise_ip c) (advertise_port c) = Some r ->
  exists resp head tail location before after,
    DescriptionXmlView_get c = Some resp
    /\ content_type resp = str "text/xml"
    /\ text resp
       = head ++ str "<URLBase>" ++ origin c ++ str "/</URLBase>" ++ tail
    /\ encode_utf8 (replace_lf_crlf (origin c ++ description_url))
       = Some location
    /\ upnp_response r
       = before ++ crlf ++ bytes "LOCATION: " ++ location ++ crlf ++ after.
Proof.
  intros H. apply __init___response in H. rewrite build_response_eq in H.
  destruct (encode_utf8 (replace_lf_crlf (advertise_ip c))) as [ip|] eqn:Eip;
    [|discriminate].
  injection H as H.
  destruct (DescriptionXmlView_get_text c)
    as (head & middle & tail & Hget & Henc).
  unfold web_Response in Hget.
  destruct (encode_utf8
              (head ++ str "<URLBase>" ++ origin c ++ str "/</URLBase>"
               ++ middle ++ str "<friendlyName>" ++ friendly_name_of c
               ++ str "</friendlyName>" ++ tail)) as [b|];
    [|exfalso; apply (proj2 Henc); [|reflexivity];
      apply encode_utf8_replace_defined; now rewrite Eip].
  destruct (expected_reply_location ip
              (map byte_of_N (str_of_int (advertise_port c))))
    as (before & after & Hloc).
  eexists. exists head. eexists. eexists. exists before, after.
  split; [exact Hget|]. cbn [text content_type].
  split; [reflexivity|]. split; [reflexivity|]. split.
  - unfold origin, description_url.
    rewrite <- !app_assoc, !replace_lf_crlf_app, !encode_utf8_app, Eip.
    rewrite (plain_encode (str_of_int (advertise_port c)))
      by apply str_of_int_plain.
    replace (encode_utf8 (replace_lf_crlf (str "http://")))
      with (Some (bytes "http://")) by (vm_compute; reflexivity).
    replace (encode_utf8 (replace_lf_crlf (str ":")))
      with (Some (bytes ":")) by (vm_compute; reflexivity).
    replace (encode_utf8 (replace_lf_crlf (str "/description.xml")))
      with (Some (bytes "/description.xml")) by (vm_compute; reflexivity).
    reflexivity.
  - rewrite <- H, Hloc. now rewrite <- !app_assoc.
Qed.

Lemma description_and_reply_agree_witness :
  exists resp head tail before after,
    DescriptionXmlView_get {| advertise_ip := str "10.0.0.5";
                              advertise_port := 8300 |} = Some resp
    /\ text resp
       = head ++ str "<URLBase>http://10.0.0.5:8300/</URLBase>" ++ tail
    /\ upnp_response hub
       = before ++ crlf
         ++ bytes "LOCATION: http://10.0.0.5:8300/description.xml"
         ++ crlf ++ after.
Proof.
  destruct (description_and_reply_agree
              {| advertise_ip := str "10.0.0.5"; advertise_port := 8300 |}
              (str "192.168.1.2") 1900 true hub)
    as (resp & head & tail & location & before & after
        & Hget & _ & Htext & Hloc & Hreply);
    [vm_compute; reflexivity|].
  exists resp, head, tail, before, after.
  split; [exact Hget|]. split; [exact Htext|].
  vm_compute in Hloc. injection Hloc as <-. exact Hreply.
Defined.

(** X2.  Both documents name the bridge alike.  [gen_config] returns for
    every configuration: its [name] is "HASS Bridge (address)", its
    [ipaddress] is the advertise address, and it does not depend on the
    port.  The description document is returned exactly when the advertise
    address can be encoded as UTF-8, which a lone surrogate cannot: then
    [web.Response] raises.  When the document is returned, its
    [friendlyName] is that same name and its body is the encoding of its
    text. *)
Theorem friendly_name_agrees (c : Config) (port : Z) :
  exists d,
    gen_config c = Some d
    /\ cfg_lookup d (str "name") = Some (CStr (friendly_name_of c))
    /\ cfg_lookup d (str "ipaddress") = Some (CStr (advertise_ip c))
    /\ gen_config {| advertise_ip := advertise_ip c; advertise_port := port |}
       = Some d
    /\ (DescriptionXmlView_get c = None
        <-> encode_utf8 (advertise_ip c) = None)
    /\ (forall resp,
          DescriptionXmlView_get c = Some resp ->
          content_type resp = str "text/xml"
          /\ encode_utf8 (text resp) = Some (body resp)
          /\ exists head tail,
               text resp
               = head ++ str "<friendlyName>" ++ friendly_name_of c
                 ++ str "</friendlyName>" ++ tail).
Proof.
  eexists. unfold gen_config. rewrite !friendly_name_format.
  split; [reflexivity|]. split; [reflexivity|]. split; [reflexivity|].
  split; [reflexivity|].
  destruct (DescriptionXmlView_get_text c)
    as (head & middle & tail & Hget & Henc).
  rewrite Hget. unfold web_Response.
  destruct (encode_utf8
              (head ++ str "<URLBase>" ++ origin c ++ str "/</URLBase>"
               ++ middle ++ str "<friendlyName>" ++ friendly_name_of c
               ++ str "</friendlyName>" ++ tail)) as [b|] eqn:E.
  - split.
    + split; [discriminate|]. intros Hip. exfalso.
      apply (proj1 Henc); [discriminate | exact Hip].
    + intros resp Hresp.
      apply (f_equal (fun o => match o with Some r => r | None => resp end))
        in Hresp.
      cbn beta iota in Hresp. subst resp. cbn [text body content_type].
      split; [reflexivity|]. split; [exact E|].
      exists (head ++ str "<URLBase>" ++ origin c ++ str "/</URLBase>"
              ++ middle), tail.
      now rewrite <- !app_assoc.
  - split; [|discriminate].
    split; [|reflexivity]. intros _.
    destruct (encode_utf8 (advertise_ip c)) eqn:Eip; [|reflexivity].
    exfalso. apply (proj2 Henc); [discriminate | reflexivity].
Qed.

(** An address that can be encoded, and one that holds a lone surrogate:
    the configuration document names both, the description document is
    returned for the first only. *)
Lemma friendly_name_agrees_witness :
  (exists resp,
     DescriptionXmlView_get {| advertise_ip := str "10.0.0.5";
                               advertise_port := 8300 |} = Some resp)
  /\ DescriptionXmlView_get {| advertise_ip := [0xD800];
                               advertise_port := 8300 |} = None
  /\ exists d,
       gen_config {| advertise_ip := [0xD800]; advertise_port := 8300 |}
       = Some d.
Proof.
  split; [|split].
  - destruct (DescriptionXmlView_get
                {| advertise_ip := str "10.0.0.5"; advertise_port := 8300 |})
      as [resp|] eqn:E; [now exists resp|].
    destruct (friendly_name_agrees
                {| advertise_ip := str "10.0.0.5"; advertise_port := 8300 |} 0)
      as (_ & _ & _ & _ & _ & Hnone & _).
    apply Hnone in E. vm_compute in E. discriminate E.
  - destruct (friendly_name_agrees
                {| advertise_ip := [0xD800]; advertise_port := 8300 |} 0)
      as (_ & _ & _ & _ & _ & Hnone & _).
    apply Hnone. vm_compute. reflexivity.
  - destruct (friendly_name_agrees
                {| advertise_ip := [0xD800]; advertise_port := 8300 |} 0)
      as (d & Hd & _).
    exists d. exact Hd.
Defined.

(** ** Replies and queries *)






Lemma setup_sends_nothing (f : option setup_call) (r : UPNPResponderThread)
      (t : trace) (ok : bool) :
  perform f (setup r) = (t, ok) -> sent t = [].
Proof.
  intros Ep.
  assert (Hn : forall c o, In (c, o) t ->
                 match c with SendTo _ _ _ => False | _ => True end).
  { intros c o Hin.
    assert (Hc : In c (map snd (setup r))).
    { apply (perform_calls f _ c o). rewrite Ep. exact Hin. }
    apply setup_no_send in Hc. destruct c; tauto. }
  clear Ep. induction t as [|[c o] t IH]; [reflexivity|].
  assert (Hc := Hn c o (or_introl eq_refl)).
  destruct c; try contradiction; cbn [sent];
    apply IH; intros c' o' Hin; apply (Hn c' o'); now right.
Qed.





(** ** Shutdown *)

Lemma interrupted_step (e : env) (s : state) :
  _interrupted (self s) = true ->
  _interrupted (self (thread_step e s)) = true
  /\ (steps_to_end (at_pc (thread_step e s))
      <= pred (steps_to_end (at_pc s)))%nat
  /\ (List.length (sent (log (thread_step e s)))
      + replies_to_come (at_pc (thread_step e s))
      <= List.length (sent (log s)) + replies_to_come (at_pc s))%nat.
Proof.
  intros Hflag. rewrite (proj1 (thread_step_self e s)).
  split; [exact Hflag|].
  unfold thread_step. rewrite Hflag.
  destruct (at_pc s) as [| | | |data addr| |] eqn:Hpc.
  - destruct (perform (setup_fault e) (setup (self s))) as [t ok] eqn:Ep.
    cbn [goto log at_pc]. rewrite sent_app, (setup_sends_nothing _ _ _ _ Ep).
    rewrite app_nil_r. destruct ok; cbn; lia.
  - cbn [goto log at_pc]. rewrite sent_app, length_app. cbn. lia.
  - destruct (polled e); cbn [goto log at_pc]; rewrite sent_app, length_app;
      cbn; lia.
  - cbn [goto log at_pc]. rewrite sent_app, length_app. cbn. lia.
  - unfold handle.
    destruct (str_contains (decode_utf8_ignore data) M_SEARCH);
      [destruct (reply_fault e) as [[]|]|];
      cbn [goto log at_pc]; rewrite sent_app, length_app; cbn; lia.
  - rewrite Hpc. cbn. lia.
  - rewrite Hpc. cbn. lia.
Qed.

(** X4.  Once the flag is set the thread ends within three of its steps,
    whatever the network does meanwhile, and it sends at most one more
    reply: the one to a query it had already received or is receiving. *)
Theorem interrupted_thread_ends_in_three_steps
        (s : state) (e1 e2 e3 : env) :
  _interrupted (self s) = true ->
  finished (at_pc (thread_step e3 (thread_step e2 (thread_step e1 s)))) = true
  /\ (List.length
        (sent (log (thread_step e3 (thread_step e2 (thread_step e1 s)))))
      <= List.length (sent (log s)) + 1)%nat.
Proof.
  intros H0.
  destruct (interrupted_step e1 s H0) as (H1 & D1 & R1).
  destruct (interrupted_step e2 _ H1) as (H2 & D2 & R2).
  destruct (interrupted_step e3 _ H2) as (H3 & D3 & R3).
  split.
  - assert (Hd : steps_to_end
                   (at_pc (thread_step e3 (thread_step e2 (thread_step e1 s))))
                 = 0%nat).
    { assert (steps_to_end (at_pc s) <= 3)%nat
        by (destruct (at_pc s); cbn; lia).
      lia. }
    destruct (at_pc (thread_step e3 (thread_step e2 (thread_step e1 s))));
      try discriminate Hd; reflexivity.
  - assert (replies_to_come (at_pc s) <= 1)%nat
      by (destruct (at_pc s); cbn; lia).
    lia.
Qed.

(** A query is being handled when [stop] is called: it is answered, and
    the thread ends. *)
Lemma interrupted_thread_ends_in_three_steps_witness :
  at_pc (thread_step quiet (thread_step quiet (thread_step quiet
           (exec (hub_received (bytes "M-SEARCH * HTTP/1.1")) [stop_called]))))
  = returned
  /\ (List.length
        (sent (log (thread_step quiet (thread_step quiet (thread_step quiet
           (exec (hub_received (bytes "M-SEARCH * HTTP/1.1"))
                 [stop_called]))))))
      <= 1)%nat.
Proof.
  split; [vm_compute; reflexivity|].
  refine (proj2 (interrupted_thread_ends_in_three_steps
                   (exec (hub_received (bytes "M-SEARCH * HTTP/1.1"))
                         [stop_called])
                   quiet quiet quiet _)).
  vm_compute. reflexivity.
Defined.

(** ** The period of the history average sensor *)

Section history_average_facts.

Variables datetime timedelta template : Type.
Variable plus minus : datetime -> timedelta -> option datetime.
Variable render : template -> rendered datetime.
Variable print_raises : option exn.

Lemma parse_block_goes_on (configured : option (conf_value timedelta template))
      (field : string) (printing : bool) (msg : string)
      (d : option datetime) (out : list report) :
  parse_block render print_raises configured field printing msg
  = goes_on d out ->
  Forall (eq Print) out
  /\ (configured = None -> d = None)
  /\ (configured <> None ->
      exists t x, configured = Some (Template t) /\ d = Some x
                  /\ (render t = is_datetime x \/ render t = is_timestamp x)).
Proof.
  unfold parse_block, except_ValueError.
  destruct configured as [[t|t]|]; [|discriminate|].
  - destruct (render t) as [e args|e|x|e|e|x] eqn:Er;
      repeat match goal with
        | |- context [if ?b then _ else _] => destruct b
        | |- context [match ?b with _ => _ end] => destruct b
        end;
      try discriminate;
      intros [= <- <-]; (split; [|split; [discriminate|]]);
      try (repeat constructor; fail);
      intros _; exists t, x;
      (split; [reflexivity|]); (split; [reflexivity|]);
      (now left) || (now right).
  - intros [= <- <-]. split; [constructor|]. split; [reflexivity|].
    intros H. now contradiction H.
Qed.

Lemma Forall_print_app (a b : list report) :
  Forall (eq Print) a -> Forall (eq Print) b -> Forall (eq Print) (a ++ b).
Proof. intros Ha Hb. apply Forall_app. now split. Qed.

(** X5.  [update_period] stores a period only when nothing went wrong:
    whenever an exception leaves it, whichever call raised it, or it
    reports anything to the logger, the sensor is left exactly as it was,
    with the period of the previous update. *)
Theorem update_period_keeps_period_on_failure
        (self self' : HistoryAverageSensor datetime timedelta template)
        (e : option exn) (out : list report) :
  update_period plus minus render print_raises self = (self', e, out) ->
  e <> None \/ (exists r, In r out /\ r <> Print) ->
  self' = self.
Proof.
  unfold update_period.
  destruct (parse_block render print_raises (_start self) _ _ _)
    as [start out1|out1|x out1] eqn:E1;
    try (intros [= <- _ _]; reflexivity).
  destruct (parse_block render print_raises (_end self) _ _ _)
    as [end_ out2|out2|x out2] eqn:E2;
    try (intros [= <- _ _]; reflexivity).
  destruct (match start with
            | Some s => inr s
            | None => with_duration minus end_ (_duration self)
            end) as [x|s]; try (intros [= <- _ _]; reflexivity).
  destruct (match end_ with
            | Some e0 => inr e0
            | None => with_duration plus (Some s) (_duration self)
            end) as [x|e0]; try (intros [= <- _ _]; reflexivity).
  intros [= <- <- <-] [H|(r & Hin & Hr)]; [now contradiction H|].
  exfalso.
  apply parse_block_goes_on in E1 as (F1 & _), E2 as (F2 & _).
  pose proof (Forall_print_app _ _ F1 F2) as F.
  rewrite Forall_forall in F. apply Hr. symmetry. now apply F.
Qed.

(** X6.  A configuration that the schema and [exactly_two_period_keys]
    let through gives a sensor whose [update_period] has the operands it
    needs.  When the templates that are configured for the start and for
    the end render to times and [print] returns, nothing is logged, and
    the method either stores a period or raises the [OverflowError] of the
    date arithmetic: it does not compute with a start, an end or a
    duration that is [None].  When it stores a period and a duration is
    configured, the period is that duration long: the end is the start
    plus the duration, or the start is the end minus the duration. *)
Theorem validated_period_is_well_formed
        (c : list (pystr * option (conf_value timedelta template)))
        (now1 now2 : datetime)
        (self' : HistoryAverageSensor datetime timedelta template)
        (e : option exn) (out : list report) :
  schema_typed c ->
  exactly_two_period_keys c = Some c ->
  (forall t,
     conf_get c CONF_START = Some (Template t)
     \/ conf_get c CONF_END = Some (Template t) ->
     exists d, render t = is_datetime d \/ render t = is_timestamp d) ->
  print_raises = None ->
  update_period plus minus render print_raises (setup_platform c now1 now2)
  = (self', e, out) ->
  Forall (eq Print) out
  /\ (e = None \/ e = Some OverflowError)
  /\ (e = None ->
      forall d, conf_get c CONF_DURATION = Some (Timedelta d) ->
      plus (fst (_period self')) d = Some (snd (_period self'))
      \/ minus (snd (_period self')) d = Some (fst (_period self'))).
Proof.
  intros (Ts & Te & Td) Hv Hr Hp.
  unfold exactly_two_period_keys, provided in Hv.
  cbn [fold_left CONF_PERIOD_KEYS] in Hv.
  unfold update_period, setup_platform.
  cbn [_start _end _duration _period].
  unfold conf_get in *.
  destruct (conf_lookup c CONF_START) as [[[ts|ds]|]|] eqn:Ls;
    try (exfalso; now apply (Ts ds));
    destruct (conf_lookup c CONF_END) as [[[te|de]|]|] eqn:Le;
    try (exfalso; now apply (Te de));
    destruct (conf_lookup c CONF_DURATION) as [[[td|dd]|]|] eqn:Ld;
    try (exfalso; now apply (Td td));
    try discriminate Hv; clear Hv;
    unfold parse_block, with_duration; rewrite ?Hp;
    try (destruct (Hr ts (or_introl eq_refl)) as [xs [-> | ->]]);
    try (destruct (Hr te (or_intror eq_refl)) as [xe [-> | ->]]);
    cbn [app];
    repeat match goal with
      | |- context [plus ?a ?b] => destruct (plus a b) eqn:?
      | |- context [minus ?a ?b] => destruct (minus a b) eqn:?
      end;
    intros [= <- <- <-];
    (split; [repeat constructor|]);
    (split; [(now left) || (now right)|]);
    cbn [_period fst snd];
    intros He dur Hdur; try discriminate He; try discriminate Hdur;
    try (injection Hdur as <-);
    first [left; assumption | right; assumption].
Qed.

End history_average_facts.

(** Three starts that give no period, and the period stays what it was.
    A text that is no time: the error is logged.  A date that does not
    exist: the [ValueError] of [parse_datetime] leaves the method.  A
    [TypeError] of [render] whose argument is a number:
    [handle_template_exception] raises [AttributeError] on it. *)
Lemma update_period_keeps_period_on_failure_witness :
  update_period demo_plus demo_minus demo_render None
    (setup_platform (demo_conf 1) 5%Z 7%Z)
  = (setup_platform (demo_conf 1) 5%Z 7%Z, None,
     [ErrorMsg "Parsing error: start must be a datetimeor a timestamp"])
  /\ update_period demo_plus demo_minus demo_render None
       (setup_platform (demo_conf 2) 5%Z 7%Z)
     = (setup_platform (demo_conf 2) 5%Z 7%Z, Some ValueError, [])
  /\ update_period demo_plus demo_minus demo_render None
       (setup_platform (demo_conf 3) 5%Z 7%Z)
     = (setup_platform (demo_conf 3) 5%Z 7%Z, Some AttributeError, []).
Proof.
  split; [|split; vm_compute; reflexivity].
  assert (E : update_period demo_plus demo_minus demo_render None
                (setup_platform (demo_conf 1) 5%Z 7%Z)
              = (fst (fst (update_period demo_plus demo_minus demo_render None
                             (setup_platform (demo_conf 1) 5%Z 7%Z))),
                 None,
                 [ErrorMsg
                    "Parsing error: start must be a datetimeor a timestamp"]))
    by (vm_compute; reflexivity).
  rewrite E at 1.
  rewrite (update_period_keeps_period_on_failure
             Z Z nat demo_plus demo_minus demo_render None _ _ _ _ E).
  - reflexivity.
  - right. eexists. split; [left; reflexivity|discriminate].
Defined.

(** A start and a duration of 60 seconds: the period runs from 1000 to
    1060. *)
Lemma validated_period_is_well_formed_witness :
  _period (fst (fst (update_period demo_plus demo_minus demo_render None
                       (setup_platform (demo_conf 0) 5%Z 7%Z))))
  = (1000%Z, 1060%Z)
  /\ (demo_plus 1000 60 = Some 1060%Z \/ demo_minus 1060 60 = Some 1000%Z).
Proof.
  split; [vm_compute; reflexivity|].
  refine (proj2 (proj2
            (validated_period_is_well_formed
               Z Z nat demo_plus demo_minus demo_render None
               (demo_conf 0) 5%Z 7%Z
               (fst (fst (update_period demo_plus demo_minus demo_render None
                            (setup_platform (demo_conf 0) 5%Z 7%Z))))
               None [] _ _ _ _ _)) eq_refl 60%Z eq_refl).
  - repeat split; intros x; vm_compute; discriminate.
  - vm_compute. reflexivity.
  - intros t [H | H]; vm_compute in H; [|discriminate H].
    injection H as <-. exists 1000%Z. left. reflexivity.
  - reflexivity.
  - vm_compute. reflexivity.
Defined.

(** ** JSON files *)




Section json_files_facts.

Variable json : Type.
Variable empty_dict : json.
Variable json_load : pystr -> exn + json.
Variable json_dumps : json -> bool -> Z -> exn + pystr.




(** X9.  A file that does not exist reads as the empty dictionary, with a
    debug message and no exception, also when its directory does not
    exist; [save_json] on such a name raises, so that what [load_json]
    returns there cannot be saved back. *)
Theorem missing_file_loads_empty
        (fs : filesystem) (w : writing) (filename : pystr) (data : json)
        (sort_keys : bool) (indent : Z) :
  fs filename = no_file \/ fs filename = no_directory ->
  load_json empty_dict json_load fs filename = (inr empty_dict, true)
  /\ (fs filename = no_directory ->
      exists e, fst (save_json json_dumps fs w filename data sort_keys indent)
                = inl e).
Proof.
  intros H. unfold load_json, save_json. split.
  - destruct H as [-> | ->]; reflexivity.
  - intros ->. destruct (json_dumps data sort_keys indent); eexists;
      reflexivity.
Qed.

End json_files_facts.


Lemma missing_file_loads_empty_witness :
  load_json (str "{}") demo_load demo_fs (str "new.json")
  = (inr (str "{}"), true).
Proof.
  refine (proj1 (missing_file_loads_empty pystr (str "{}") demo_load
                   demo_dumps demo_fs written (str "new.json") (str "")
                   true 4 _)).
  left. reflexivity.
Defined.

(** ** Sockets held by a run *)

Lemma setup_socket_counts (f : option setup_call) (r : UPNPResponderThread) :
  open_count resp_socket 0 (fst (perform f (setup r))) = 0%nat
  /\ (open_count ssdp_socket 0 (fst (perform f (setup r))) <= 1)%nat.
Proof.
  unfold setup. destruct f as [[]|]; destruct (upnp_bind_multicast r);
    cbn; split; lia.
Qed.

Lemma thread_step_socket_bounds (e : env) (s : state) :
  run_invariant s -> socket_bounds s -> socket_bounds (thread_step e s).
Proof.
  intros [Hsetup Halive Hret _ _] [Hr0 Hr1 Hl1].
  unfold thread_step.
  destruct (at_pc s) as [| | | |data addr| |] eqn:Hpc.
  - pose proof (setup_socket_counts (setup_fault e) (self s)) as [C0 C1].
    destruct (perform (setup_fault e) (setup (self s))) as [t ok].
    cbn [fst] in C0, C1.
    constructor; cbn [goto log at_pc]; rewrite (Hsetup eq_refl);
      cbn [app]; rewrite ?C0; lia.
  - assert (Ha := Halive eq_refl).
    assert (Hz : open_count resp_socket 0 (log s) = 0%nat)
      by (apply Hr0; discriminate).
    destruct (_interrupted (self s));
      constructor; cbn [goto log at_pc];
      rewrite ?open_count_app, ?Ha, ?Hz; cbn; try lia; reflexivity.
  - assert (Ha := Halive eq_refl).
    assert (Hz : open_count resp_socket 0 (log s) = 0%nat)
      by (apply Hr0; discriminate).
    destruct (polled e); constructor; cbn [goto log at_pc];
      rewrite ?open_count_app, ?Ha, ?Hz; cbn; try lia; reflexivity.
  - assert (Ha := Halive eq_refl).
    assert (Hz : open_count resp_socket 0 (log s) = 0%nat)
      by (apply Hr0; discriminate).
    destruct (_interrupted (self s));
      constructor; cbn [goto log at_pc];
      rewrite ?open_count_app, ?Ha, ?Hz; cbn; try lia; reflexivity.
  - assert (Ha := Halive eq_refl).
    assert (Hz : open_count resp_socket 0 (log s) = 0%nat)
      by (apply Hr0; discriminate).
    unfold handle.
    destruct (str_contains (decode_utf8_ignore data) M_SEARCH);
      [destruct (reply_fault e) as [[]|]|];
      constructor; cbn [goto log at_pc];
      rewrite ?open_count_app, ?Ha, ?Hz; cbn; try lia;
      first [reflexivity | intros H; now contradiction H].
  - constructor; rewrite ?Hpc; assumption.
  - constructor; rewrite ?Hpc; assumption.
Qed.

Lemma step_socket_bounds (s : state) (ev : event) :
  run_invariant s /\ socket_bounds s ->
  run_invariant (step s ev) /\ socket_bounds (step s ev).
Proof.
  intros [Hinv Hb]. split; [now apply step_invariant|].
  destruct ev as [e| |]; cbn [step].
  - now apply thread_step_socket_bounds.
  - destruct Hb as [Hr0 Hr1 Hl1].
    destruct (sup s); constructor; cbn [log at_pc]; assumption.
  - destruct Hb as [Hr0 Hr1 Hl1].
    destruct (sup s); try destruct (finished (at_pc s));
      constructor; cbn [log at_pc]; assumption.
Qed.

(** X10.  A run holds at most one listening socket and at most one reply
    socket open at any time.  As long as no exception has left [run], no
    reply socket is open between two steps, however many queries were
    answered; and once [run] has returned, no socket at all is open. *)
Theorem sockets_do_not_pile_up (r : UPNPResponderThread) (evs : list event) :
  (open_count ssdp_socket 0 (log (exec (started r) evs)) <= 1)%nat
  /\ (open_count resp_socket 0 (log (exec (started r) evs)) <= 1)%nat
  /\ (at_pc (exec (started r) evs) <> raised ->
      open_count resp_socket 0 (log (exec (started r) evs)) = 0%nat)
  /\ (at_pc (exec (started r) evs) = returned ->
      open_count ssdp_socket 0 (log (exec (started r) evs)) = 0%nat
      /\ open_count resp_socket 0 (log (exec (started r) evs)) = 0%nat).
Proof.
  assert (H : run_invariant (exec (started r) evs)
              /\ socket_bounds (exec (started r) evs)).
  { apply (exec_invariant (fun s => run_invariant s /\ socket_bounds s)).
    - apply step_socket_bounds.
    - split; [apply started_invariant|].
      constructor; cbn; lia. }
  destruct H as [[_ _ Hret _ _] [Hr0 Hr1 Hl1]].
  repeat split; try assumption.
  - now apply Hret.
  - apply Hr0. rewrite H. discriminate.
Qed.

(** ** Stopping before the first step *)

(** X11.  The flag is not read before the set-up.  When [stop] is called
    before the thread has taken its first step, the thread still creates,
    configures and binds the listening socket; it then finds the flag set,
    closes the socket and returns without having polled once, and [stop]
    returns. *)
Theorem stop_before_first_step
        (r : UPNPResponderThread) (e1 e2 : env) :
  setup_fault e1 = None ->
  sup (exec (started r) [stop_called; thread e1; thread e2; join_returns])
  = stop_returned
  /\ at_pc (exec (started r)
              [stop_called; thread e1; thread e2; join_returns])
     = returned
  /\ log (exec (started r) [stop_called; thread e1; thread e2; join_returns])
     = map (fun kc => (snd kc, returns)) (setup r)
       ++ clean_socket_close ssdp_socket.
Proof.
  intros He.
  assert (E1 : thread_step e1 (step (started r) stop_called)
               = {| self := interrupt r; at_pc := at_loop_top;
                    log := map (fun kc => (snd kc, returns)) (setup r);
                    sup := joining |}).
  { unfold thread_step. cbn [step started sup at_pc self]. rewrite He.
    reflexivity. }
  assert (E2 : thread_step e2 (thread_step e1 (step (started r) stop_called))
               = {| self := interrupt r; at_pc := returned;
                    log := map (fun kc => (snd kc, returns)) (setup r)
                           ++ clean_socket_close ssdp_socket;
                    sup := joining |})
    by (rewrite E1; reflexivity).
  change (exec (started r) [stop_called; thread e1; thread e2; join_returns])
    with (step (thread_step e2 (thread_step e1 (step (started r) stop_called)))
               join_returns).
  rewrite E2. repeat split; reflexivity.
Qed.

Lemma stop_before_first_step_witness :
  at_pc (exec (started hub)
           [stop_called; thread quiet; thread quiet; join_returns])
  = returned
  /\ sent (log (exec (started hub)
                  [stop_called; thread quiet; thread quiet; join_returns]))
     = [].
Proof.
  destruct (stop_before_first_step hub quiet quiet eq_refl)
    as (_ & Hpc & Hlog).
  split; [exact Hpc|]. rewrite Hlog. vm_compute. reflexivity.
Defined.

(** ** Encoding and decoding *)

(** Bits that do not overlap add up. *)
Lemma lor_disjoint (m x k : N) :
  m mod 2 ^ k = 0 -> x < 2 ^ k -> N.lor m x = m + x.
Proof.
  intros Hm Hx.
  assert (L : N.land m x = 0).
  { apply N.bits_inj. intros i. rewrite N.land_spec, N.bits_0.
    destruct (N.ltb_spec i k) as [Hi|Hi].
    - rewrite <- (N.mod_pow2_bits_low m k i) by exact Hi.
      now rewrite Hm, N.bits_0.
    - rewrite <- (N.mod_small x (2 ^ k)) by exact Hx.
      rewrite N.mod_pow2_bits_high by exact Hi. apply andb_false_r. }
  rewrite <- N.lxor_lor by exact L. symmetry. now apply N.add_nocarry_lxor.
Qed.

Lemma land_marker (m x k : N) :
  m mod 2 ^ k = 0 -> x < 2 ^ k -> N.land (m + x) (N.ones k) = x.
Proof.
  intros Hm Hx. rewrite N.land_ones, <- N.Div0.add_mod_idemp_l, Hm.
  now apply N.mod_small.
Qed.

(** A number cut into its low six bits and the rest. *)
Lemma split6 (n : N) :
  exists high low,
    n = 64 * high + low /\ low < 64
    /\ N.shiftr n 6 = high /\ N.land n 0x3F = low.
Proof.
  exists (n / 64), (n mod 64).
  split; [apply (N.div_mod n 64); discriminate|].
  split; [apply N.mod_lt; discriminate|].
  split; [apply (N.shiftr_div_pow2 n 6)|apply (N.land_ones n 6)].
Qed.

(** A lead byte and a continuation byte, as numbers. *)
Lemma lead_byte (m x k : N) :
  m mod 2 ^ k = 0 -> x < 2 ^ k -> m + x < 256 ->
  Byte.to_N (byte_of_N (N.lor m x)) = m + x.
Proof.
  intros Hm Hx Hb. rewrite (lor_disjoint m x k Hm Hx).
  now apply to_N_byte_of_N_small.
Qed.

Lemma push6 (acc x : N) :
  x < 64 -> N.lor (N.shiftl acc 6) (N.land (128 + x) 0x3F) = 64 * acc + x.
Proof.
  intros Hx. change 0x3F with (N.ones 6).
  rewrite (land_marker 128 x 6) by (reflexivity || exact Hx).
  rewrite N.shiftl_mul_pow2.
  rewrite (lor_disjoint (acc * 2 ^ 6) x 6);
    [change (2 ^ 6) with 64; lia | apply N.Div0.mod_mul | exact Hx].
Qed.

Ltac split_ifs :=
  repeat match goal with
    | |- context [if ?x <? ?y then _ else _] =>
        destruct (N.ltb_spec x y); try lia
    | |- context [if ?x =? ?y then _ else _] =>
        destruct (N.eqb_spec x y); try lia
    | |- context [if (?x <=? ?y) && (?u <=? ?v) then _ else _] =>
        destruct (N.leb_spec x y); destruct (N.leb_spec u v);
        cbn [andb]; try lia
    end.

Ltac unsome H :=
  apply (f_equal (fun o => match o with Some l => l | None => [] end)) in H;
  cbv beta iota in H; rewrite <- H; clear H.

Lemma decode_lead (b : byte) (s : list byte) (p : pending) :
  classify (Byte.to_N b) = Lead p ->
  decode_from strict None (b :: s) = decode_from strict (Some p) s.
Proof. intros H. cbn [decode_from]. now rewrite H. Qed.

Lemma decode_continuation (p : pending) (b : byte) (s : list byte) :
  lo p <= Byte.to_N b -> Byte.to_N b <= hi p ->
  decode_from strict (Some p) (b :: s)
  = match need p with
    | O =>
        option_map
          (cons (N.lor (N.shiftl (acc p) 6) (N.land (Byte.to_N b) 0x3F)))
          (decode_from strict None s)
    | S k =>
        decode_from strict
          (Some {| need := k;
                   acc := N.lor (N.shiftl (acc p) 6)
                            (N.land (Byte.to_N b) 0x3F);
                   lo := 0x80; hi := 0xBF |}) s
    end.
Proof.
  intros Hl Hh. cbn [decode_from].
  apply N.leb_le in Hl, Hh. now rewrite Hl, Hh.
Qed.

Lemma classify_lead2 (q : N) :
  2 <= q < 32 ->
  classify (192 + q)
  = Lead {| need := 0; acc := N.land (192 + q) 0x1F; lo := 0x80; hi := 0xBF |}.
Proof. intros H. unfold classify. split_ifs. reflexivity. Qed.

Lemma classify_lead3 (p : N) :
  p < 16 ->
  classify (224 + p)
  = Lead {| need := 1; acc := N.land (224 + p) 0x0F;
            lo := if p =? 0 then 0xA0 else 0x80;
            hi := if p =? 13 then 0x9F else 0xBF |}.
Proof.
  intros H. unfold classify. split_ifs; try reflexivity; exfalso; lia.
Qed.

Lemma classify_lead4 (a : N) :
  a <= 4 ->
  classify (240 + a)
  = Lead {| need := 2; acc := N.land (240 + a) 0x07;
            lo := if a =? 0 then 0x90 else 0x80;
            hi := if a =? 4 then 0x8F else 0xBF |}.
Proof.
  intros H. unfold classify. split_ifs; try reflexivity; exfalso; lia.
Qed.

Lemma decode_encode_char (c : N) (bc rest : list byte) :
  encode_char c = Some bc ->
  decode_from strict None (bc ++ rest)
  = option_map (cons c) (decode_from strict None rest).
Proof.
  unfold encode_char.
  destruct (N.ltb_spec c 0x80) as [H1|H1].
  { intros H. unsome H. cbn [app decode_from].
    rewrite to_N_byte_of_N_small by lia.
    unfold classify. split_ifs. reflexivity. }
  destruct (split6 c) as (q & e & Hc & He & Sq & Le).
  assert (Be : Byte.to_N (byte_of_N (N.lor 0x80 e)) = 128 + e)
    by (apply (lead_byte 0x80 e 6); [reflexivity|exact He|lia]).
  destruct (N.ltb_spec c 0x800) as [H2|H2].
  { intros H. unsome H. rewrite Sq, Le. cbn [app].
    assert (Bq : Byte.to_N (byte_of_N (N.lor 0xC0 q)) = 192 + q)
      by (apply (lead_byte 0xC0 q 5);
          [reflexivity|change (2 ^ 5) with 32; lia|lia]).
    rewrite (decode_lead _ _ _ (eq_trans (f_equal classify Bq)
                                  (classify_lead2 q ltac:(lia)))).
    rewrite decode_continuation by (cbn [lo hi]; rewrite Be; lia).
    cbn [need acc]. rewrite Be. change 0x1F with (N.ones 5).
    rewrite (land_marker 0xC0 q 5), (push6 q e)
      by (reflexivity || (change (2 ^ 5) with 32; lia)).
    now rewrite <- Hc. }
  destruct (split6 q) as (p & d & Hq & Hd & Sp & Ld).
  assert (S12 : N.shiftr c 12 = p)
    by (change 12 with (6 + 6); now rewrite <- N.shiftr_shiftr, Sq).
  assert (Bd : Byte.to_N (byte_of_N (N.lor 0x80 d)) = 128 + d)
    by (apply (lead_byte 0x80 d 6); [reflexivity|exact Hd|lia]).
  destruct (N.ltb_spec c 0x10000) as [H3|H3].
  { destruct ((0xD800 <=? c) && (c <=? 0xDFFF)) eqn:Hs; [discriminate|].
    assert (Hns : c < 0xD800 \/ 0xDFFF < c).
    { apply andb_false_iff in Hs as [Hs|Hs]; apply N.leb_gt in Hs; lia. }
    intros H. unsome H. rewrite S12, Sq, Ld, Le. cbn [app].
    assert (Bp : Byte.to_N (byte_of_N (N.lor 0xE0 p)) = 224 + p)
      by (apply (lead_byte 0xE0 p 4);
          [reflexivity|change (2 ^ 4) with 16; lia|lia]).
    rewrite (decode_lead _ _ _ (eq_trans (f_equal classify Bp)
                                  (classify_lead3 p ltac:(lia)))).
    rewrite decode_continuation
      by (cbn [lo hi]; rewrite Bd; split_ifs; lia).
    cbn [need acc]. rewrite Bd. change 0x0F with (N.ones 4).
    rewrite (land_marker 0xE0 p 4), (push6 p d)
      by (reflexivity || (change (2 ^ 4) with 16; lia)).
    rewrite decode_continuation by (cbn [lo hi]; rewrite Be; lia).
    cbn [need acc]. rewrite Be, (push6 (64 * p + d) e) by lia.
    now rewrite <- Hq, <- Hc. }
  destruct (split6 p) as (a & b & Hp & Hb & Sa & Lb).
  assert (S18 : N.shiftr c 18 = a)
    by (change 18 with (12 + 6); now rewrite <- N.shiftr_shiftr, S12).
  assert (Bb : Byte.to_N (byte_of_N (N.lor 0x80 b)) = 128 + b)
    by (apply (lead_byte 0x80 b 6); [reflexivity|exact Hb|lia]).
  destruct (N.ltb_spec c 0x110000) as [H4|H4]; [|discriminate].
  intros H. unsome H. rewrite S18, S12, Sq, Lb, Ld, Le. cbn [app].
  assert (Ba : Byte.to_N (byte_of_N (N.lor 0xF0 a)) = 240 + a)
    by (apply (lead_byte 0xF0 a 3);
        [reflexivity|change (2 ^ 3) with 8; lia|lia]).
  rewrite (decode_lead _ _ _ (eq_trans (f_equal classify Ba)
                                (classify_lead4 a ltac:(lia)))).
  rewrite decode_continuation by (cbn [lo hi]; rewrite Bb; split_ifs; lia).
  cbn [need acc]. rewrite Bb. change 0x07 with (N.ones 3).
  rewrite (land_marker 0xF0 a 3), (push6 a b)
    by (reflexivity || (change (2 ^ 3) with 8; lia)).
  rewrite decode_continuation by (cbn [lo hi]; rewrite Bd; lia).
  cbn [need acc]. rewrite Bd, (push6 (64 * a + b) d) by lia.
  rewrite decode_continuation by (cbn [lo hi]; rewrite Be; lia).
  cbn [need acc]. rewrite Be, (push6 (64 * (64 * a + b) + d) e) by lia.
  now rewrite <- Hp, <- Hq, <- Hc.
Qed.

(** Decoding undoes encoding: the bytes that [encode('utf-8')] makes of a
    text decode, without any error, to that text. *)
Lemma decode_encode (s : pystr) (b : list byte) :
  encode_utf8 s = Some b -> decode_utf8 strict b = Some s.
Proof.
  unfold decode_utf8. revert b. induction s as [|c s IH]; intros b H.
  - injection H as <-. reflexivity.
  - cbn [encode_utf8] in H.
    destruct (encode_char c) as [bc|] eqn:Ec; [|discriminate].
    destruct (encode_utf8 s) as [bs|] eqn:Es; [|discriminate].
    injection H as <-.
    now rewrite (decode_encode_char c bc bs Ec), (IH bs eq_refl).
Qed.

(** What decodes without error decodes alike when errors are ignored. *)
Lemma decode_strict_ignore (b : list byte) :
  forall (st : option pending) (out : pystr),
    decode_from strict st b = Some out -> decode_from ignore st b = Some out.
Proof.
  induction b as [|x b IH]; intros st out H.
  - destruct st; [discriminate H|exact H].
  - cbn [decode_from] in *.
    assert (F : forall o,
               match classify (Byte.to_N x) with
               | Ascii c => option_map (cons c) (decode_from strict None b)
               | Lead p => decode_from strict (Some p) b
               | InvalidStart => on_error strict (decode_from strict None b)
               end = Some o ->
               match classify (Byte.to_N x) with
               | Ascii c => option_map (cons c) (decode_from ignore None b)
               | Lead p => decode_from ignore (Some p) b
               | InvalidStart => on_error ignore (decode_from ignore None b)
               end = Some o).
    { intros o. destruct (classify (Byte.to_N x)) as [c|p|].
      - destruct (decode_from strict None b) as [t|] eqn:E; [|discriminate].
        intros [= <-]. now rewrite (IH None t E).
      - apply IH.
      - discriminate. }
    destruct st as [p|]; [|now apply F].
    destruct ((lo p <=? Byte.to_N x) && (Byte.to_N x <=? hi p));
      [|discriminate H].
    destruct (need p).
    + destruct (decode_from strict None b) as [t|] eqn:E; [|discriminate].
      injection H as <-. now rewrite (IH None t E).
    + now apply IH.
Qed.

(** ** The substring test *)

Lemma startswith_spec (hay needle : pystr) :
  startswith hay needle = true <-> exists rest, hay = needle ++ rest.
Proof.
  revert hay. induction needle as [|a needle IH]; intros hay.
  - split; [intros _; now exists hay|intros _; now destruct hay].
  - destruct hay as [|b hay]; simpl.
    + split; [discriminate|]. intros [rest H]. discriminate H.
    + rewrite andb_true_iff, N.eqb_eq, IH. split.
      * intros [-> [rest ->]]. now exists rest.
      * intros [rest [= -> ->]]. split; [reflexivity|now exists rest].
Qed.

Lemma str_contains_spec (hay needle : pystr) :
  str_contains hay needle = true
  <-> exists before after, hay = before ++ needle ++ after.
Proof.
  induction hay as [|c hay IH].
  - cbn [str_contains]. rewrite orb_false_r, startswith_spec. split.
    + intros [rest H]. exists [], rest. exact H.
    + intros (before & after & H).
      destruct before; [now exists after|discriminate H].
  - cbn [str_contains]. rewrite orb_true_iff, startswith_spec, IH. split.
    + intros [[rest H]|(before & after & H)].
      * exists [], rest. exact H.
      * exists (c :: before), after. now rewrite H.
    + intros (before & after & H). destruct before as [|c' before].
      * left. now exists after.
      * right. injection H as _ H. now exists before, after.
Qed.

(** X12.  A query sent as well-formed text is recognised by its text.  For
    a datagram of at most 1024 bytes that is the UTF-8 encoding of a text,
    the responder takes it for a query exactly when "M-SEARCH" occurs in
    that text, at any position. *)
Theorem wellformed_query_recognised (query : pystr) (payload : list byte) :
  encode_utf8 query = Some payload ->
  (List.length payload <= 1024)%nat ->
  is_query payload = true
  <-> exists before after, query = before ++ str "M-SEARCH" ++ after.
Proof.
  intros He Hl. unfold is_query.
  rewrite firstn_all2 by exact Hl.
  assert (Hd : decode_utf8_ignore payload = query).
  { unfold decode_utf8_ignore, decode_utf8.
    now rewrite (decode_strict_ignore payload None query
                   (decode_encode query payload He)). }
  rewrite Hd. apply str_contains_spec.
Qed.

Lemma wellformed_query_recognised_witness :
  is_query (bytes "NOTIFY or M-SEARCH * HTTP/1.1") = true.
Proof.
  apply (wellformed_query_recognised
           (str "NOTIFY or M-SEARCH * HTTP/1.1")
           (bytes "NOTIFY or M-SEARCH * HTTP/1.1")).
  - reflexivity.
  - vm_compute. lia.
  - exists (str "NOTIFY or "), (str " * HTTP/1.1"). reflexivity.
Defined.

(** X13.  The reply is well-formed text: decoding its bytes without
    tolerance for errors gives back the template with the address and the
    port filled in and its line breaks turned into CR LF. *)
Theorem upnp_response_decodes
        (h : pystr) (lp : Z) (m : bool) (ip : pystr) (port : Z)
        (r : UPNPResponderThread) :
  __init__ h lp m ip port = Some r ->
  decode_utf8 strict (upnp_response r)
  = Some (replace_lf_crlf
            (template_head ++ ip ++ str ":" ++ str_of_int port
             ++ template_tail)).
Proof.
  intros H. apply __init___response in H. unfold build_response in H.
  rewrite format_resp_template in H. now apply decode_encode.
Qed.

Lemma upnp_response_decodes_witness :
  option_map (fun t => str_contains t (str "LOCATION: http://10.0.0.5:8300/"))
             (decode_utf8 strict (upnp_response hub))
  = Some true.
Proof.
  rewrite (upnp_response_decodes (str "192.168.1.2") 1900 true
             (str "10.0.0.5") 8300 hub);
    vm_compute; reflexivity.
Defined.
